(** * Tape-to-Jest codemod: a shallow embedding of [src/transformers/tape.js]

    The transformer works on an ESTree syntax tree that an external parser
    builds and an external printer serialises.  The tree, the warning
    side channel and the exceptions a JavaScript run can raise are made
    explicit here; the rule tables and the per-call rewriting callbacks are
    transcribed from the source. *)

From stdpp Require Import base option list strings gmap.

Local Open Scope string_scope.
Local Open Scope list_scope.

(** ** Syntax trees *)

(** The value carried by a [Literal] node. *)
Inductive literal : Type :=
| LString (s : string)
| LBoolean (b : bool)
| LNumber (n : Z)
| LRegExp (pattern : string)
| LNull.

#[global] Instance literal_eq_dec : EqDecision literal.
Proof. solve_decision. Defined.

(** ESTree nodes, restricted to the node types the transformer can meet in
    the shapes it inspects.  Function parameters and declarator ids are
    identifier patterns and are kept by name.  [Absent] stands for a slot
    holding [null] or a slot that was deleted; [Raw] is a bare JavaScript
    string stored where a node is expected (the comment rewriter does that
    to a callee). *)
Unset Elimination Schemes.
Inductive node : Type :=
| File (program : node)
| Program (body : list node)
| ImportDeclaration (local : string) (source : string)
| VariableDeclaration (kind : string) (declarations : list node)
| VariableDeclarator (id : string) (init : node)
| ExpressionStatement (expression : node)
| BlockStatement (body : list node)
| IfStatement (test consequent alternate : node)
| Identifier (name : string)
| Literal (value : literal)
| CallExpression (callee : node) (arguments : list node)
| MemberExpression (object property : node) (computed : bool)
| ObjectExpression (properties : list node)
| Property (key value : node)
| ArrowFunctionExpression (params : list string) (body : node)
| FunctionExpression (params : list string) (body : node)
| Absent
| Raw (s : string).
Set Elimination Schemes.

(** Induction over [node] that reaches through the [list node] children. *)
Section node_ind.
Variable P : node → Prop.
Hypothesis HFile : ∀ p, P p → P (File p).
Hypothesis HProgram : ∀ b, Forall P b → P (Program b).
Hypothesis HImport : ∀ l s, P (ImportDeclaration l s).
Hypothesis HVarDecl : ∀ k ds, Forall P ds → P (VariableDeclaration k ds).
Hypothesis HDeclarator : ∀ i e, P e → P (VariableDeclarator i e).
Hypothesis HExprStmt : ∀ e, P e → P (ExpressionStatement e).
Hypothesis HBlock : ∀ b, Forall P b → P (BlockStatement b).
Hypothesis HIf : ∀ t c a, P t → P c → P a → P (IfStatement t c a).
Hypothesis HIdent : ∀ x, P (Identifier x).
Hypothesis HLit : ∀ v, P (Literal v).
Hypothesis HCall : ∀ c args, P c → Forall P args → P (CallExpression c args).
Hypothesis HMember : ∀ o p c, P o → P p → P (MemberExpression o p c).
Hypothesis HObject : ∀ ps, Forall P ps → P (ObjectExpression ps).
Hypothesis HProperty : ∀ k v, P k → P v → P (Property k v).
Hypothesis HArrow : ∀ ps b, P b → P (ArrowFunctionExpression ps b).
Hypothesis HFunction : ∀ ps b, P b → P (FunctionExpression ps b).
Hypothesis HAbsent : P Absent.
Hypothesis HRaw : ∀ s, P (Raw s).

Fixpoint node_ind (n : node) : P n :=
  let all := fix all (l : list node) : Forall P l :=
    match l with
    | [] => Forall_nil_2 P
    | x :: l' => Forall_cons_2 P x l' (node_ind x) (all l')
    end in
  match n with
  | File p => HFile p (node_ind p)
  | Program b => HProgram b (all b)
  | ImportDeclaration l s => HImport l s
  | VariableDeclaration k ds => HVarDecl k ds (all ds)
  | VariableDeclarator i e => HDeclarator i e (node_ind e)
  | ExpressionStatement e => HExprStmt e (node_ind e)
  | BlockStatement b => HBlock b (all b)
  | IfStatement t c a =>
      HIf t c a (node_ind t) (node_ind c) (node_ind a)
  | Identifier x => HIdent x
  | Literal v => HLit v
  | CallExpression c args => HCall c args (node_ind c) (all args)
  | MemberExpression o p c => HMember o p c (node_ind o) (node_ind p)
  | ObjectExpression ps => HObject ps (all ps)
  | Property k v => HProperty k v (node_ind k) (node_ind v)
  | ArrowFunctionExpression ps b => HArrow ps b (node_ind b)
  | FunctionExpression ps b => HFunction ps b (node_ind b)
  | Absent => HAbsent
  | Raw s => HRaw s
  end.
End node_ind.

(** *** Property reads

    A read of a property a node does not own yields [undefined], here
    [None]. *)

(** [n.type] *)
Definition type_of (n : node) : string :=
  match n with
  | File _ => "File"
  | Program _ => "Program"
  | ImportDeclaration _ _ => "ImportDeclaration"
  | VariableDeclaration _ _ => "VariableDeclaration"
  | VariableDeclarator _ _ => "VariableDeclarator"
  | ExpressionStatement _ => "ExpressionStatement"
  | BlockStatement _ => "BlockStatement"
  | IfStatement _ _ _ => "IfStatement"
  | Identifier _ => "Identifier"
  | Literal _ => "Literal"
  | CallExpression _ _ => "CallExpression"
  | MemberExpression _ _ _ => "MemberExpression"
  | ObjectExpression _ => "ObjectExpression"
  | Property _ _ => "Property"
  | ArrowFunctionExpression _ _ => "ArrowFunctionExpression"
  | FunctionExpression _ _ => "FunctionExpression"
  | Absent => "(absent)"
  | Raw _ => "(string)"
  end.

(** [n.name] *)
Definition name_of (n : node) : option string :=
  match n with
  | Identifier x => Some x
  | _ => None
  end.

(** [n.params]: the names of the parameters of a function node. *)
Definition params_of (n : node) : option (list string) :=
  match n with
  | ArrowFunctionExpression ps _ | FunctionExpression ps _ => Some ps
  | _ => None
  end.

(** [n.params && n.params[0] && n.params[0].name] *)
Definition first_param (n : node) : option string :=
  match params_of n with
  | Some (x :: _) => Some x
  | _ => None
  end.

(** [n.value] of a literal. *)
Definition value_of (n : node) : option literal :=
  match n with
  | Literal v => Some v
  | _ => None
  end.

(** [n.type === 'Literal' && typeof n.value === 'string'] *)
Definition is_string_literal (n : node) : bool :=
  match n with
  | Literal (LString _) => true
  | _ => false
  end.

(** ** Warnings and exceptions *)

(** One call of the logger: the message and the node the path pointed at. *)
Record warning : Type := Warning { message : string; anchor : option node }.

(** What a run can throw. *)
Inductive exn : Type :=
| TypeError (what : string)
| BuilderError (what : string)
| SyntaxError.

(** A computation either finishes with a value or throws; in both cases
    the warnings logged so far are kept. *)
Inductive outcome (A : Type) : Type :=
| Done (a : A) (log : list warning)
| Thrown (e : exn) (log : list warning).
Arguments Done {A} a log.
Arguments Thrown {A} e log.

Definition outcome_bind {A B} (f : A → outcome B) (m : outcome A) : outcome B :=
  match m with
  | Done a w =>
      match f a with
      | Done b w' => Done b (w ++ w')
      | Thrown e w' => Thrown e (w ++ w')
      end
  | Thrown e w => Thrown e w
  end.

#[global] Instance outcome_ret : MRet outcome := λ A a, Done a [].
#[global] Instance outcome_mbind : MBind outcome := λ A B, outcome_bind.

Definition throw {A} (e : exn) : outcome A := Thrown e [].
Definition logWarning (msg : string) (p : option node) : outcome unit :=
  Done () [Warning msg p].

Definition log_of {A} (m : outcome A) : list warning :=
  match m with Done _ w | Thrown _ w => w end.

Definition result_of {A} (m : outcome A) : option A :=
  match m with Done a _ => Some a | Thrown _ _ => None end.

Definition messages_of {A} (m : outcome A) : list string :=
  message <$> log_of m.

(** Run [f] over a list from left to right, as [Array.prototype.forEach]
    and the tree visitor do. *)
Definition traverse {A B} (f : A → outcome B) : list A → outcome (list B) :=
  fix go l :=
    match l with
    | [] => mret []
    | x :: l' => y ← f x; ys ← go l'; mret (y :: ys)
    end.

Definition forEach {A} (f : A → outcome unit) (l : list A) : outcome unit :=
  _ ← traverse f l; mret ().

(** ** Rule tables *)

Definition SPECIAL_THROWS_CASE : string := "(special throws case)".

Definition tapeToJestExpect_entries : list (string * string) :=
  [ ("ok", "toBeTruthy"); ("true", "toBeTruthy"); ("assert", "toBeTruthy");
    ("notOk", "toBeFalsy"); ("false", "toBeFalsy"); ("notok", "toBeFalsy");
    ("equal", "toBe"); ("equals", "toBe"); ("isEqual", "toBe");
    ("strictEqual", "toBe"); ("strictEquals", "toBe");
    ("notEqual", "not.toBe"); ("notStrictEqual", "not.toBe");
    ("notStrictEquals", "not.toBe"); ("isNotEqual", "not.toBe");
    ("doesNotEqual", "not.toBe"); ("isInequal", "not.toBe");
    ("deepEqual", "toEqual"); ("isEquivalent", "toEqual"); ("same", "toEqual");
    ("notDeepEqual", "not.toEqual"); ("notEquivalent", "not.toEqual");
    ("notDeeply", "not.toEqual"); ("notSame", "not.toEqual");
    ("isNotDeepEqual", "not.toEqual"); ("isNotEquivalent", "not.toEqual");
    ("isInequivalent", "not.toEqual");
    ("throws", SPECIAL_THROWS_CASE); ("doesNotThrow", SPECIAL_THROWS_CASE) ].

Definition tapeToJestExpect : gmap string string :=
  list_to_map tapeToJestExpect_entries.

Definition unsupportedTProperties : gset string :=
  list_to_set
    [ "timeoutAfter"; "deepLooseEqual"; "looseEqual"; "looseEquals";
      "notDeepLooseEqual"; "notLooseEqual"; "notLooseEquals";
      "fail"; "pass"; "error"; "ifErr"; "iferror"; "skip" ].

Definition unsupportedTestFunctionProperties : gset string :=
  list_to_set [ "createStream"; "onFinish" ].

Definition PROP_WITH_SECONDS_ARGS : list string :=
  [ "toBe"; "not.toBe"; "toEqual"; "not.toEqual" ].

(** ** Node builders

    The builders of the tree library validate their fields.  Over [node]
    the one way the transformer can fail them is by handing over
    [undefined]: an array element read past the end of an argument list,
    a name looked up under a missing key, or a field read from a slot
    whose node has been deleted. *)

Definition j_identifier (name : option string) : outcome node :=
  match name with
  | Some x => mret (Identifier x)
  | None => throw (BuilderError "no value or default function given for field name of Identifier")
  end.

Definition defined_all (l : list (option node)) : option (list node) :=
  mapM id l.

Definition j_callExpression (callee : node) (args : list (option node)) : outcome node :=
  match defined_all args with
  | Some args' => mret (CallExpression callee args')
  | None => throw (BuilderError "undefined does not match field arguments of CallExpression")
  end.

Definition j_memberExpression (object property : node) : node :=
  MemberExpression object property false.

(** [j.arrowFunctionExpression(params, body, false)]: [params] holds
    names; [body] is [undefined] once the node in that slot has been
    pruned. *)
Definition j_arrowFunctionExpression (params : list string) (body : node) : outcome node :=
  match body with
  | Absent =>
      throw (BuilderError "undefined does not match field body of ArrowFunctionExpression")
  | _ => mret (ArrowFunctionExpression params body)
  end.

(** ** The assertion rewriter ([updateAssertions]) *)

(** The filter of the pass: a call whose callee has an [object] named [t]
    and a [property] whose name is a key of [tapeToJestExpect]. *)
Definition is_tape_assertion (n : node) : bool :=
  match n with
  | CallExpression (MemberExpression o p _) _ =>
      bool_decide (name_of o = Some "t") &&
      match name_of p with
      | Some x => bool_decide (is_Some (tapeToJestExpect !! x))
      | None => false
      end
  | _ => false
  end.

(** The body of the [forEach] callback: from the matched call to the
    expression that replaces it. *)
Definition updateAssertions_callback (p : node) : outcome node :=
  match p with
  | CallExpression (MemberExpression _ property _) args =>
      let oldPropertyName := name_of property in
      let newPropertyName := oldPropertyName ≫= (tapeToJestExpect !!.) in
      newCondition ←
        (if bool_decide (newPropertyName = Some SPECIAL_THROWS_CASE) then
           let secondArgString :=
             bool_decide (length args = 2) &&
             from_option is_string_literal false (args !! 1) in
           let noErrorType := bool_decide (length args = 1) || secondArgString in
           if noErrorType then
             callee ← j_identifier
               (Some (if bool_decide (oldPropertyName = Some "throws")
                      then "toThrow" else "not.toThrow"));
             j_callExpression callee []
           else
             callee ← j_identifier (Some "toThrowError");
             j_callExpression callee [args !! 1]
         else
           let hasSecondArgument :=
             match newPropertyName with
             | Some x => bool_decide (x ∈ PROP_WITH_SECONDS_ARGS)
             | None => false
             end in
           let conditionArgs := if hasSecondArgument then [args !! 1] else [] in
           callee ← j_identifier newPropertyName;
           j_callExpression callee conditionArgs);
      expectCall ←
        (callee ← j_identifier (Some "expect"); j_callExpression callee [args !! 0]);
      mret (j_memberExpression expectCall newCondition)
  | _ => throw (TypeError "Cannot read properties of undefined")
  end.

(** *** Shapes used to state the rewriting rules *)

(** [t.<member>(args)] *)
Definition t_call (member : string) (args : list node) : node :=
  CallExpression (MemberExpression (Identifier "t") (Identifier member) false) args.

(** [expect(subject).<matcher>(margs)], in the form the builders give it:
    a member expression whose property is the matcher call. *)
Definition expect_that (subject : node) (matcher : string) (margs : list node) : node :=
  MemberExpression (CallExpression (Identifier "expect") [subject])
                   (CallExpression (Identifier matcher) margs) false.

(** ** Walking the tree *)

(** The nodes directly below [n], in the order the visitor meets them. *)
Definition children (n : node) : list node :=
  match n with
  | File p => [p]
  | Program b | BlockStatement b => b
  | VariableDeclaration _ ds => ds
  | VariableDeclarator _ e | ExpressionStatement e => [e]
  | IfStatement t c a => [t; c; a]
  | CallExpression c args => c :: args
  | MemberExpression o p _ => [o; p]
  | ObjectExpression ps => ps
  | Property k v => [k; v]
  | ArrowFunctionExpression _ b | FunctionExpression _ b => [b]
  | ImportDeclaration _ _ | Identifier _ | Literal _ | Absent | Raw _ => []
  end.

(** [n] followed by everything below it, in pre-order. *)
Fixpoint subnodes (n : node) : list node :=
  n :: match n with
       | File p => subnodes p
       | Program b | BlockStatement b => b ≫= subnodes
       | VariableDeclaration _ ds => ds ≫= subnodes
       | VariableDeclarator _ e | ExpressionStatement e => subnodes e
       | IfStatement t c a => subnodes t ++ subnodes c ++ subnodes a
       | CallExpression c args => subnodes c ++ (args ≫= subnodes)
       | MemberExpression o p _ => subnodes o ++ subnodes p
       | ObjectExpression ps => ps ≫= subnodes
       | Property k v => subnodes k ++ subnodes v
       | ArrowFunctionExpression _ b | FunctionExpression _ b => subnodes b
       | ImportDeclaration _ _ | Identifier _ | Literal _ | Absent | Raw _ => []
       end.

(** [find]: the nodes below the root that pass the filter, in pre-order;
    the root itself is never part of the result. *)
Definition find (matches : node → bool) (root : node) : list node :=
  filter (λ n, matches n = true) (children root ≫= subnodes).

(** Run [f] on each node directly below [n], left to right. *)
Definition forEach_child (f : node → outcome unit) (n : node) : outcome unit :=
  match n with
  | File p => forEach f [p]
  | Program b | BlockStatement b => forEach f b
  | VariableDeclaration _ ds => forEach f ds
  | VariableDeclarator _ e | ExpressionStatement e => forEach f [e]
  | IfStatement t c a => forEach f [t; c; a]
  | CallExpression c args => forEach f (c :: args)
  | MemberExpression o p _ => forEach f [o; p]
  | ObjectExpression ps => forEach f ps
  | Property k v => forEach f [k; v]
  | ArrowFunctionExpression _ b | FunctionExpression _ b => forEach f [b]
  | ImportDeclaration _ _ | Identifier _ | Literal _ | Absent | Raw _ => forEach f []
  end.

(** Rebuild [n] with [f] run on each node directly below it, left to
    right. *)
Definition traverse_children (f : node → outcome node) (n : node) : outcome node :=
  match n with
  | File p => p' ← f p; mret (File p')
  | Program b => b' ← traverse f b; mret (Program b')
  | VariableDeclaration k ds => ds' ← traverse f ds; mret (VariableDeclaration k ds')
  | VariableDeclarator i e => e' ← f e; mret (VariableDeclarator i e')
  | ExpressionStatement e => e' ← f e; mret (ExpressionStatement e')
  | BlockStatement b => b' ← traverse f b; mret (BlockStatement b')
  | IfStatement t c a =>
      t' ← f t; c' ← f c; a' ← f a; mret (IfStatement t' c' a')
  | CallExpression c args =>
      c' ← f c; args' ← traverse f args; mret (CallExpression c' args')
  | MemberExpression o p c => o' ← f o; p' ← f p; mret (MemberExpression o' p' c)
  | ObjectExpression ps => ps' ← traverse f ps; mret (ObjectExpression ps')
  | Property k v => k' ← f k; v' ← f v; mret (Property k' v')
  | ArrowFunctionExpression ps b => b' ← f b; mret (ArrowFunctionExpression ps b')
  | FunctionExpression ps b => b' ← f b; mret (FunctionExpression ps b')
  | ImportDeclaration _ _ | Identifier _ | Literal _ | Absent | Raw _ => mret n
  end.

(** The pass over a whole tree.  The visitor collects the matching paths
    in pre-order and the callbacks then run in that order, so the callback
    of a call runs before those of the calls below it.  [replaceWith]
    writes the new expression into the slot the path was collected from.
    For a matching call that is itself an argument of a call replaced
    before it, that slot is the argument array of the replaced call, which
    is no longer part of the tree: the new [expect(...)] holds the
    argument in an array of its own and keeps it as it was.  [detached]
    says that [n] is such an argument.  The arguments of a call are walked
    in both cases; the replacement shares them with the call, hence it is
    rebuilt from the arguments as the callbacks below leave them. *)
Fixpoint updateAssertions_visit (detached : bool) (n : node) : outcome node :=
  match n with
  | CallExpression callee args =>
      if is_tape_assertion n then
        _ ← updateAssertions_callback n;
        args' ← traverse (updateAssertions_visit (negb detached)) args;
        if detached then mret (CallExpression callee args')
        else updateAssertions_callback (CallExpression callee args')
      else traverse_children (updateAssertions_visit false) n
  | _ => traverse_children (updateAssertions_visit false) n
  end.

Definition updateAssertions (ast : node) : outcome node :=
  updateAssertions_visit false ast.

(** ** Call shapes the passes look for *)

(** [callee: { object: { name: 't' }, property: { name: member } }] *)
Definition is_t_member (member : string) (n : node) : bool :=
  match n with
  | CallExpression (MemberExpression o p _) _ =>
      bool_decide (name_of o = Some "t") && bool_decide (name_of p = Some member)
  | _ => false
  end.

(** [callee: { object: { name: 't' }, property: ({ name }) => names.has(name) }],
    and the same with another object name. *)
Definition is_member_in (object : string) (names : gset string) (n : node) : bool :=
  match n with
  | CallExpression (MemberExpression o p _) _ =>
      bool_decide (name_of o = Some object) &&
      match name_of p with
      | Some x => bool_decide (x ∈ names)
      | None => false
      end
  | _ => false
  end.

(** [callee: { object: { name: testFunctionName } }] *)
Definition is_test_member_call (testFunctionName : string) (n : node) : bool :=
  match n with
  | CallExpression (MemberExpression o _ _) _ =>
      bool_decide (name_of o = Some testFunctionName)
  | _ => false
  end.

(** [callee: { name: testFunctionName }] *)
Definition is_test_call (testFunctionName : string) (n : node) : bool :=
  match n with
  | CallExpression callee _ => bool_decide (name_of callee = Some testFunctionName)
  | _ => false
  end.

(** ** Message texts *)

Definition dquote : string :=
  String (Ascii.Ascii false true false false false true false false) EmptyString.

Definition quoted (s : string) : string := dquote +:+ s +:+ dquote.

Definition lower_ascii (c : Ascii.ascii) : Ascii.ascii :=
  let k := Ascii.nat_of_ascii c in
  if bool_decide (65 ≤ k ≤ 90)%nat then Ascii.ascii_of_nat (k + 32) else c.

Fixpoint toLowerCase (s : string) : string :=
  match s with
  | EmptyString => EmptyString
  | String c s' => String (lower_ascii c) (toLowerCase s')
  end.

(** [s.indexOf(sub) >= 0] *)
Definition includes (sub s : string) : bool :=
  bool_decide (is_Some (String.index 0 sub s)).

(** ** The read-only passes *)

Definition validateTestArgument (p : node) : outcome unit :=
  match p with
  | CallExpression _ args =>
      match last args ≫= first_param with
      | Some lastArgName =>
          if bool_decide (lastArgName ≠ "t") then
            logWarning ("argument to test function should be named " +:+ quoted "t"
                        +:+ " not " +:+ quoted lastArgName) (Some p)
          else mret ()
      | None => mret ()
      end
  | _ => throw (TypeError "Cannot read properties of undefined")
  end.

Definition detectUnsupportedNaming (testFunctionName : string) (ast : node) : outcome unit :=
  _ ← forEach validateTestArgument (find (is_test_member_call testFunctionName) ast);
  forEach validateTestArgument (find (is_test_call testFunctionName) ast).

(** [p.value.callee.property.name] of a matched call. *)
Definition callee_property_name (p : node) : option string :=
  match p with
  | CallExpression (MemberExpression _ property _) _ => name_of property
  | _ => None
  end.

Definition warn_unsupported_t (p : node) : outcome unit :=
  match callee_property_name p with
  | Some propertyName =>
      if includes "looseequal" (toLowerCase propertyName) then
        logWarning (quoted propertyName +:+ " is currently not supported. Try the stricter "
                    +:+ quoted "toEqual" +:+ " or " +:+ quoted "not.toEqual") (Some p)
      else
        logWarning (quoted propertyName +:+ " is currently not supported") (Some p)
  | None => throw (TypeError "Cannot read properties of undefined")
  end.

Definition warn_unsupported_test (p : node) : outcome unit :=
  match callee_property_name p with
  | Some propertyName =>
      logWarning (quoted propertyName +:+ " is currently not supported") (Some p)
  | None => throw (TypeError "Cannot read properties of undefined")
  end.

Definition detectUnsupportedFeatures (testFunctionName : string) (ast : node) : outcome unit :=
  _ ← forEach warn_unsupported_t (find (is_member_in "t" unsupportedTProperties) ast);
  forEach warn_unsupported_test
    (find (is_member_in testFunctionName unsupportedTestFunctionProperties) ast).

(** ** The comment rewriter ([updateTapeComments])

    The callee of [t.comment(...)] is overwritten with the string
    ['console.log']; the arguments stay and are walked in turn. *)
Fixpoint updateTapeComments_visit (n : node) : outcome node :=
  match n with
  | CallExpression callee args =>
      if is_t_member "comment" n then
        args' ← traverse updateTapeComments_visit args;
        mret (CallExpression (Raw "console.log") args')
      else traverse_children updateTapeComments_visit n
  | _ => traverse_children updateTapeComments_visit n
  end.

Definition updateTapeComments (ast : node) : outcome node :=
  updateTapeComments_visit ast.

(** ** The test-registration rewriter ([rewriteTestCallExpression]) *)

(** *** End calls (lines 209-226)

    [anc] lists the nodes above the current one, nearest first; the
    [parent] of a path is the nearest enclosing node. *)

(** [pEnd.parent.parent.parent.node], then the test on its parameters. *)
Definition inTestScope (anc : list node) : outcome bool :=
  match anc !! 2%nat with
  | Some outerParent => mret (bool_decide (first_param outerParent = Some "t"))
  | None => throw (TypeError "Cannot read properties of null")
  end.

(** The walk hands back, for every node, what is left of it ([None] once
    it has been pruned) and the end calls the filter keeps.  A pruned node
    leaves a list it was an element of, and leaves any other slot
    [Absent]. *)
Definition prune_slot (f : node → outcome (option node * list node)) (x : node)
  : outcome (node * list node) :=
  '(r, kept) ← f x; mret (default Absent r, kept).

Definition prune_list (f : node → outcome (option node * list node))
  : list node → outcome (list node * list node) :=
  fix go l :=
    match l with
    | [] => mret ([], [])
    | x :: l' =>
        '(r, kept) ← f x;
        '(rs, kept') ← go l';
        mret (option_list r ++ rs, kept ++ kept')
    end.

Definition prune_children (f : node → outcome (option node * list node)) (n : node)
  : outcome (node * list node) :=
  match n with
  | File p => '(p', k) ← prune_slot f p; mret (File p', k)
  | Program b => '(b', k) ← prune_list f b; mret (Program b', k)
  | VariableDeclaration kind ds =>
      '(ds', k) ← prune_list f ds; mret (VariableDeclaration kind ds', k)
  | VariableDeclarator i e => '(e', k) ← prune_slot f e; mret (VariableDeclarator i e', k)
  | ExpressionStatement e => '(e', k) ← prune_slot f e; mret (ExpressionStatement e', k)
  | BlockStatement b => '(b', k) ← prune_list f b; mret (BlockStatement b', k)
  | IfStatement t c a =>
      '(t', k1) ← prune_slot f t;
      '(c', k2) ← prune_slot f c;
      '(a', k3) ← prune_slot f a;
      mret (IfStatement t' c' a', k1 ++ k2 ++ k3)
  | CallExpression c args =>
      '(c', k1) ← prune_slot f c;
      '(args', k2) ← prune_list f args;
      mret (CallExpression c' args', k1 ++ k2)
  | MemberExpression o p c =>
      '(o', k1) ← prune_slot f o;
      '(p', k2) ← prune_slot f p;
      mret (MemberExpression o' p' c, k1 ++ k2)
  | ObjectExpression ps => '(ps', k) ← prune_list f ps; mret (ObjectExpression ps', k)
  | Property key v =>
      '(key', k1) ← prune_slot f key;
      '(v', k2) ← prune_slot f v;
      mret (Property key' v', k1 ++ k2)
  | ArrowFunctionExpression ps b =>
      '(b', k) ← prune_slot f b; mret (ArrowFunctionExpression ps b', k)
  | FunctionExpression ps b =>
      '(b', k) ← prune_slot f b; mret (FunctionExpression ps b', k)
  | ImportDeclaration _ _ | Identifier _ | Literal _ | Absent | Raw _ => mret (n, [])
  end.

(** The filter callback over every [t.end(...)] below the test call, in
    pre-order.  The end calls inside a pruned one were collected with it
    and are still tested.  An expression statement that loses its
    expression is pruned with it. *)
Fixpoint pruneEnd_visit (anc : list node) (n : node) : outcome (option node * list node) :=
  if is_t_member "end" n then
    inScope ← inTestScope anc;
    '(n', kept) ← prune_children (pruneEnd_visit (n :: anc)) n;
    if (inScope : bool) then mret (None, kept) else mret (Some n', n :: kept)
  else
    match n with
    | ExpressionStatement e =>
        '(e', kept) ← pruneEnd_visit (n :: anc) e;
        mret (option_map ExpressionStatement e', kept)
    | _ =>
        '(n', kept) ← prune_children (pruneEnd_visit (n :: anc)) n;
        mret (Some n', kept)
    end.

(** [j(p).find(...).filter(...)]: the test call after pruning, and the end
    calls that stay. *)
Definition pruneEnds (anc : list node) (p : node) : outcome (node * list node) :=
  prune_children (pruneEnd_visit (p :: anc)) p.

(** *** Options, renaming, parameter stripping (lines 232-266) *)

(** [p.value.callee.name = name] *)
Definition set_callee_name (name : string) (p : node) : node :=
  match p with
  | CallExpression (Identifier _) args => CallExpression (Identifier name) args
  | _ => p
  end.

Definition callee_name (p : node) : option string :=
  match p with
  | CallExpression callee _ => name_of callee
  | _ => None
  end.

Definition arguments_of (p : node) : list node :=
  match p with
  | CallExpression _ args => args
  | _ => []
  end.

Definition set_arguments (args : list node) (p : node) : node :=
  match p with
  | CallExpression callee _ => CallExpression callee args
  | _ => p
  end.

Definition is_ObjectExpression (a : node) : bool :=
  bool_decide (type_of a = "ObjectExpression").

(** One property of an options object. *)
Definition convertTapeOption (p : node) (tapeOption : node) : outcome node :=
  match tapeOption with
  | Property key value =>
      let tapeOptionKey := name_of key in
      let tapeOptionValue := value_of value in
      let p1 :=
        if bool_decide (tapeOptionKey = Some "skip")
           && bool_decide (tapeOptionValue = Some (LBoolean true))
        then set_callee_name "test.skip" p else p in
      _ ← (if bool_decide (tapeOptionKey = Some "timeout")
           then logWarning (quoted "timeout" +:+ " option is currently not supported") (Some p1)
           else mret ());
      mret p1
  | _ => throw (TypeError "Cannot read properties of undefined (reading 'name')")
  end.

(** A loop that threads the call it mutates. *)
Definition foldM {A} (f : node → A → outcome node) : list A → node → outcome node :=
  fix go l p :=
    match l with
    | [] => mret p
    | x :: l' => p' ← f p x; go l' p'
    end.

(** One argument of the call: an object literal has its properties read
    and the object literals are then filtered out of the argument list. *)
Definition convertTapeArgument (p : node) (a : node) : outcome node :=
  if is_ObjectExpression a then
    p' ← foldM convertTapeOption (children a) p;
    mret (set_arguments (filter (λ pa, is_ObjectExpression pa = false) (arguments_of p')) p')
  else mret p.

(** The loop runs over the argument array as it was before the loop. *)
Definition convertTapeOptions (p : node) : outcome node :=
  foldM convertTapeArgument (arguments_of p) p.

(** Lines 251-253. *)
Definition renameCallee (p : node) : node :=
  if bool_decide (callee_name p ≠ Some "xit") then set_callee_name "test" p else p.

(** Lines 255-266. *)
Definition removeTParameter (p : node) : outcome node :=
  let args := arguments_of p in
  match last args with
  | None | Some Absent =>
      throw (TypeError "Cannot read properties of undefined (reading 'type')")
  | Some (ArrowFunctionExpression _ body) =>
      arrowFunction ← j_arrowFunctionExpression ["()"] body;
      mret (set_arguments (<[pred (length args) := arrowFunction]> args) p)
  | Some (FunctionExpression _ body) =>
      mret (set_arguments (<[pred (length args) := FunctionExpression [EmptyString] body]> args) p)
  | Some _ => mret p
  end.

(** The body of the [forEach] callback. *)
Definition rewriteTestCallExpression_callback (anc : list node) (p : node) : outcome node :=
  '(p, kept) ← pruneEnds anc p;
  let containsDeepEndFunction := bool_decide (0 < length kept)%nat in
  _ ← (if containsDeepEndFunction
       then logWarning "t.end is currently not supported in callbacks (maybe return a promise)" (Some p)
       else mret ());
  p ← convertTapeOptions p;
  let p := renameCallee p in
  removeTParameter p.

(** The callback the pass runs at a node, if any. *)
Definition rewriteTestCallExpression_at (testFunctionName : string) (anc : list node) (n : node)
  : outcome node :=
  if is_test_call testFunctionName n
  then rewriteTestCallExpression_callback anc n
  else mret n.

(** *** The pass (lines 206-208)

    [ast.find] collects the paths of all the test calls before the first
    callback runs, and [forEach] then runs the callback on every one of
    them, in the order of the tree.  So the callback also runs for a test
    call inside a subtree that an earlier callback has taken out of the
    tree (a pruned end call and its arguments, a dropped options object):
    its warnings and its failures count as any other's, while what it
    rewrites is no longer part of the tree.

    The model therefore has two walks.  [runCallbacks] runs the callback
    for every collected path, for the warnings and the failures;
    [rewriteTestCallExpression_tree] computes the tree that the callbacks
    leave. *)

(** What the callback of an enclosing test call has left of [n]: the end
    calls in scope have been pruned from it. *)
Definition afterPrune (anc : list node) (n : node) : outcome node :=
  '(n', _) ← pruneEnds anc n; mret n'.

(** The callbacks, in the order of the collected paths: pre-order over
    the tree as the pass found it, subtrees that get detached included.
    [anc] are the nodes of the parent paths, [inside] tells whether one of
    them is a test call.

    A callback sees its node as the callbacks before it have left it.
    Those that touched it are the callbacks of the test calls around it
    (any other one works in a subtree of its own).  Such a callback edits
    its own callee, argument list and callback parameters, and below that
    it only prunes: when the outermost of them is done, every end call in
    scope below it is gone, inside the subtrees it detached too, since
    their end calls were collected with the others.  Whether an end call is
    in scope is read off the parameters of the third node above it, and
    these only ever change to the placeholder, on a function whose end
    calls in scope are gone by then.  So a test call with a test call
    above it is what [afterPrune] leaves of it, and one with none above it
    is still as it was collected. *)
Fixpoint runCallbacks
    (testFunctionName : string) (inside : bool) (anc : list node) (n : node) : outcome unit :=
  _ ← (if is_test_call testFunctionName n then
         p ← (if inside then afterPrune anc n else mret n);
         _ ← rewriteTestCallExpression_callback anc p;
         mret ()
       else mret ());
  forEach_child
    (runCallbacks testFunctionName (inside || is_test_call testFunctionName n) (n :: anc))
    n.

(** The tree: the callback of a test call rewrites the call before the
    callbacks of the test calls below it, which start from what it left.
    Only what is still part of the tree is walked.  [fuel] bounds the depth
    of the walk; the height of the tree is enough
    ([rewriteTestCallExpression_tree_height]). *)
Fixpoint rewriteTestCallExpression_tree
    (fuel : nat) (testFunctionName : string) (anc : list node) (n : node) : outcome node :=
  match fuel with
  | O => mret n
  | S fuel' =>
      n' ← rewriteTestCallExpression_at testFunctionName anc n;
      traverse_children
        (rewriteTestCallExpression_tree fuel' testFunctionName (n' :: anc)) n'
  end.

(** The number of nodes on the longest path down from [n]. *)
Fixpoint height (n : node) : nat :=
  S (match n with
     | File p => height p
     | Program b | BlockStatement b => max_list (height <$> b)
     | VariableDeclaration _ ds => max_list (height <$> ds)
     | VariableDeclarator _ e | ExpressionStatement e => height e
     | IfStatement t c a => height t `max` (height c `max` height a)
     | CallExpression c args => height c `max` max_list (height <$> args)
     | MemberExpression o p _ => height o `max` height p
     | ObjectExpression ps => max_list (height <$> ps)
     | Property k v => height k `max` height v
     | ArrowFunctionExpression _ b | FunctionExpression _ b => height b
     | ImportDeclaration _ _ | Identifier _ | Literal _ | Absent | Raw _ => 0
     end).

(** The result of [m] without its log. *)
Definition quietly {A} (m : outcome A) : outcome A :=
  match m with
  | Done a _ => Done a []
  | Thrown e _ => Thrown e []
  end.

Definition rewriteTestCallExpression (testFunctionName : string) (ast : node) : outcome node :=
  _ ← runCallbacks testFunctionName false [] ast;
  quietly (rewriteTestCallExpression_tree (height ast) testFunctionName [] ast).

(** ** Imports of a package

    [removeRequireAndImport] and [hasRequireOrImport] live in
    [utils/imports], which is not part of the sources at hand. *)

(** Modelled from the spec: the import helpers of [utils/imports] are
    missing.  [require('pkg')] names the package [pkg]. *)
Definition required_package (e : node) : option string :=
  match e with
  | CallExpression callee [Literal (LString source)] =>
      if bool_decide (name_of callee = Some "require") then Some source else None
  | _ => None
  end.

(** Modelled from the spec: the import helpers of [utils/imports] are
    missing.  A statement requires or imports [pkg] when it is
    [import local from 'pkg'] or a declaration
    [var local = require('pkg')]; it binds [local]. *)
Definition binding_of (pkg : string) (stmt : node) : option string :=
  match stmt with
  | ImportDeclaration local source =>
      if bool_decide (source = pkg) then Some local else None
  | VariableDeclaration _ [VariableDeclarator local init] =>
      if bool_decide (required_package init = Some pkg) then Some local else None
  | _ => None
  end.

(** Modelled from the spec: the import helpers of [utils/imports] are
    missing.  The statements they look at are those of the program. *)
Definition program_body (ast : node) : list node :=
  match ast with
  | File (Program body) => body
  | _ => []
  end.

(** Modelled from the spec: [hasRequireOrImport] of [utils/imports] is
    missing; it tells whether the file requires or imports [pkg]. *)
Definition hasRequireOrImport (ast : node) (pkg : string) : bool :=
  bool_decide (Exists (λ stmt, is_Some (binding_of pkg stmt)) (program_body ast)).

(** Modelled from the spec: [removeRequireAndImport] of [utils/imports] is
    missing.  It removes the statements that require or import [pkg] and
    returns the local name bound by the first of them; without such a
    statement the tree is left as it is and nothing is returned. *)
Definition removeRequireAndImport (ast : node) (pkg : string) : option string * node :=
  match ast with
  | File (Program body) =>
      (head (omap (binding_of pkg) body),
       File (Program (filter (λ stmt, binding_of pkg stmt = None) body)))
  | _ => (None, ast)
  end.

Definition detectProblematicPackages (ast : node) : outcome unit :=
  forEach
    (λ pkg,
       if hasRequireOrImport ast pkg then
         logWarning ("Usage of package " +:+ quoted pkg +:+ " might be incompatible with Jest")
                    None
       else mret ())
    ["proxyquire"; "testdouble"].

(** ** The transformer *)

Section tapeToJest.
(** The parser ([j(source)], which throws on text it cannot parse), the
    printer ([ast.toSource({ quote })]) and the quote detector are
    collaborators outside the transformer. *)
Variable parse : string → option node.
Variable toSource : node → string → string.
Variable detectQuoteStyle : node → option string.

(** The passes of the [transforms] array, in order. *)
Definition transforms (testFunctionName : string) (ast : node) : outcome node :=
  _ ← detectUnsupportedNaming testFunctionName ast;
  _ ← detectUnsupportedFeatures testFunctionName ast;
  ast ← updateAssertions ast;
  ast ← updateTapeComments ast;
  ast ← rewriteTestCallExpression testFunctionName ast;
  _ ← detectProblematicPackages ast;
  mret ast.

(** [!testFunctionName] *)
Definition falsy (testFunctionName : option string) : bool :=
  match testFunctionName with
  | None => true
  | Some name => bool_decide (name = EmptyString)
  end.

(** [a || b] on strings *)
Definition or_else (a : option string) (b : string) : string :=
  match a with
  | Some x => if bool_decide (x = EmptyString) then b else x
  | None => b
  end.

Definition tapeToJest (source : string) : outcome string :=
  match parse source with
  | None => throw SyntaxError
  | Some ast =>
      let '(testFunctionName, ast) := removeRequireAndImport ast "tape" in
      if falsy testFunctionName then mret source
      else
        ast ← transforms (default EmptyString testFunctionName) ast;
        let quote := or_else (detectQuoteStyle ast) "single" in
        mret (toSource ast quote)
  end.
End tapeToJest.

(** ** Sample trees *)

(** [test(args)] as a statement, for a callee [test]. *)
Definition call_stmt (callee : node) (args : list node) : node :=
  ExpressionStatement (CallExpression callee args).

(** [t => { body }] *)
Definition test_callback (body : list node) : node :=
  ArrowFunctionExpression ["t"] (BlockStatement body).

(** [const test = require('tape');] *)
Definition require_tape : node :=
  VariableDeclaration "const"
    [VariableDeclarator "test"
       (CallExpression (Identifier "require") [Literal (LString "tape")])].

(** [t.throws(fn, /re/, 'msg')] *)
Definition throws_three : node :=
  t_call "throws" [Identifier "fn"; Literal (LRegExp "re"); Literal (LString "msg")].

(** [const test = require('tape'); test('x', t => { t.throws(fn, /re/, 'msg'); });] *)
Definition file_throws_three : node :=
  File (Program
    [require_tape;
     call_stmt (Identifier "test")
       [Literal (LString "x"); test_callback [ExpressionStatement throws_three]]]).

(** [{ skip: true }] *)
Definition skip_option : node :=
  ObjectExpression [Property (Identifier "skip") (Literal (LBoolean true))].

(** [test('x', { skip: true }, t => { t.ok(a); })] *)
Definition test_with_skip : node :=
  CallExpression (Identifier "test")
    [Literal (LString "x"); skip_option;
     test_callback [ExpressionStatement (t_call "ok" [Identifier "a"])]].

Definition file_skip : node :=
  File (Program [require_tape; ExpressionStatement test_with_skip]).

(** [t.end();] *)
Definition end_stmt : node := ExpressionStatement (t_call "end" []).

(** [test('x', { timeout: 100 }, t => { setTimeout(() => t.end()); })] *)
Definition test_with_timeout : node :=
  CallExpression (Identifier "test")
    [Literal (LString "x");
     ObjectExpression [Property (Identifier "timeout") (Literal (LNumber 100))];
     test_callback
       [call_stmt (Identifier "setTimeout")
          [ArrowFunctionExpression [] (t_call "end" [])]]].

(** [test('x', t => { t.plan(1); t.end(); })] *)
Definition file_end_direct : node :=
  File (Program
    [require_tape;
     call_stmt (Identifier "test")
       [Literal (LString "x");
        test_callback [ExpressionStatement (t_call "plan" [Literal (LNumber 1)]); end_stmt]]]).

(** [test('x', t => { setTimeout(() => t.end(), 0); })] *)
Definition file_end_nested : node :=
  File (Program
    [require_tape;
     call_stmt (Identifier "test")
       [Literal (LString "x");
        test_callback
          [call_stmt (Identifier "setTimeout")
             [ArrowFunctionExpression [] (t_call "end" []); Literal (LNumber 0)]]]]).

(** [test('x', t => { if (c) { t.end(); } })] *)
Definition file_end_in_block : node :=
  File (Program
    [require_tape;
     call_stmt (Identifier "test")
       [Literal (LString "x");
        test_callback
          [IfStatement (Identifier "c") (BlockStatement [end_stmt]) Absent]]]).

(** [test.only('name', t => { t.ok(a); })] *)
Definition test_only : node :=
  CallExpression (MemberExpression (Identifier "test") (Identifier "only") false)
    [Literal (LString "name");
     test_callback [ExpressionStatement (t_call "ok" [Identifier "a"])]].

Definition file_only : node :=
  File (Program [require_tape; ExpressionStatement test_only]).

(** A file that uses another library: [test.only('name', t => { t.ok(a); })]
    with no import of tape. *)
Definition file_without_tape : node :=
  File (Program [ExpressionStatement test_only]).

(** The passes run on a tree: the import is taken out, then [transforms]. *)
Definition run_transforms (ast : node) : outcome node :=
  let '(name, ast) := removeRequireAndImport ast "tape" in
  transforms (default EmptyString name) ast.

(** [const test = require('tape'); test();] *)
Definition file_zero_arguments : node :=
  File (Program [require_tape; call_stmt (Identifier "test") []]).

(** [test('a', { skip: test() }, t => {});]: a call of the test function
    inside an options object, which the callback of the outer call drops. *)
Definition file_zero_arguments_detached : node :=
  File (Program
    [call_stmt (Identifier "test")
       [Literal (LString "a");
        ObjectExpression
          [Property (Identifier "skip") (CallExpression (Identifier "test") [])];
        test_callback []]]).

(** [const test = require('tape'); test('x', t => foo(t.end()()));] *)
Definition file_end_callee : node :=
  File (Program
    [require_tape;
     call_stmt (Identifier "test")
       [Literal (LString "x");
        ArrowFunctionExpression ["t"]
          (CallExpression (Identifier "foo") [CallExpression (t_call "end" []) []])]]).

Definition text_end_callee : string :=
  "const test = require('tape'); test('x', t => foo(t.end()()));".

(** Stand-ins for the collaborators on that file: a parser that knows the
    file under its text and rejects any other text, and a printer that
    prints the tree the passes leave of it, with nothing where the pruned
    callee was; that text is not a program. *)
Definition parse_end_callee (source : string) : option node :=
  if bool_decide (source = text_end_callee) then Some file_end_callee else None.

Definition print_end_callee (ast : node) (quote : string) : string :=
  "test('x', () => foo(()));".

(** [test('b', t => { setTimeout(() => t.end()); })] inside
    [test('a', t => { t.end(...); });]: the callback of the outer call
    prunes the statement that holds the inner call. *)
Definition test_in_end : node :=
  CallExpression (Identifier "test")
    [Literal (LString "b");
     test_callback
       [call_stmt (Identifier "setTimeout")
          [ArrowFunctionExpression [] (t_call "end" [])]]].

Definition file_test_in_end : node :=
  File (Program
    [call_stmt (Identifier "test")
       [Literal (LString "a");
        test_callback [ExpressionStatement (t_call "end" [test_in_end])]]]).

(** Stand-ins for the collaborators, for running the transformer on a
    tree at hand: a parser that knows one file, and a printer that
    prints nothing of the tree. *)
Definition parse_only (ast : node) (source : string) : option node :=
  if bool_decide (source = "input") then Some ast else Some (File (Program [])).

Definition print_blank (ast : node) (quote : string) : string := "output".

Definition no_quote_style (ast : node) : option string := None.

(** ** Predicates the properties are stated with *)

(** The targets of the table that take no reference value. *)
Definition truthiness_targets : list string := ["toBeTruthy"; "toBeFalsy"].

(** A run that finishes, and a run that throws. *)
Definition succeeds {A} (m : outcome A) : Prop := ∃ a w, m = Done a w.

Definition aborts {A} (m : outcome A) : Prop := ∃ e w, m = Thrown e w.

(** What a pass may do at a node: leave it alone, walk its children with
    a pass of the same family, or put a call or a member expression there
    whose callee is not [require]. *)
Definition rewritten_call (n' : node) : Prop :=
  match n' with
  | CallExpression c _ => name_of c ≠ Some "require"
  | MemberExpression _ _ _ => True
  | _ => False
  end.

Definition walker (P : (node → outcome node) → Prop) : Prop :=
  ∀ F, P F → ∀ n,
    F n = mret n
    ∨ (∃ G, P G ∧ F n = traverse_children G n)
    ∨ (∀ n' w, F n = Done n' w → rewritten_call n').

Definition updateAssertions_walk (F : node → outcome node) : Prop :=
  ∃ detached, F = updateAssertions_visit detached.

Definition updateTapeComments_walk (F : node → outcome node) : Prop :=
  F = updateTapeComments_visit.

Definition rewriteTestCallExpression_walk (F : node → outcome node) : Prop :=
  ∃ fuel name anc, F = rewriteTestCallExpression_tree fuel name anc.

(** A call whose callee is an identifier. *)
Definition identifier_call (p : node) : Prop :=
  ∃ x args, p = CallExpression (Identifier x) args.

(** The members of [unsupportedTProperties] that get the loose-equality
    wording. *)
Definition loose_equality_members : list string :=
  [ "deepLooseEqual"; "looseEqual"; "looseEquals";
    "notDeepLooseEqual"; "notLooseEqual"; "notLooseEquals" ].

(** The matchers the assertion rewriter can put after [expect(...)]. *)
Definition jest_matchers : list string :=
  [ "toBeTruthy"; "toBeFalsy"; "toBe"; "not.toBe"; "toEqual"; "not.toEqual";
    "toThrow"; "not.toThrow"; "toThrowError" ].

(** What the options loop reads: the properties of the object literals
    among the arguments, in order, and among them the ones that switch
    the call to its skip variant and the ones that ask for a timeout. *)
Definition option_properties (args : list node) : list node :=
  filter (λ a, is_ObjectExpression a = true) args ≫= children.

Definition is_skip_option (o : node) : bool :=
  match o with
  | Property key value =>
      bool_decide (name_of key = Some "skip")
      && bool_decide (value_of value = Some (LBoolean true))
  | _ => false
  end.

Definition is_timeout_option (o : node) : bool :=
  match o with
  | Property key _ => bool_decide (name_of key = Some "timeout")
  | _ => false
  end.

Definition timeout_message : string :=
  quoted "timeout" +:+ " option is currently not supported".

Definition end_message : string :=
  "t.end is currently not supported in callbacks (maybe return a promise)".

(** The arguments of a statement [t.end(...)] written with plain
    identifiers. *)
Definition end_statement_arguments (s : node) : option (list node) :=
  match s with
  | ExpressionStatement
      (CallExpression (MemberExpression (Identifier o) (Identifier p) false) args) =>
      if bool_decide (o = "t") && bool_decide (p = "end") then Some args else None
  | _ => None
  end.

Definition is_end_statement (s : node) : bool :=
  match end_statement_arguments s with Some _ => true | None => false end.

(** * Properties *)

(** ** The monad of outcomes *)

Lemma outcome_ret_bind {A B} (a : A) (f : A → outcome B) : (mret a ≫= f) = f a.
Proof.
  unfold mret, outcome_ret, mbind, outcome_mbind, outcome_bind.
  destruct (f a); reflexivity.
Qed.

Lemma outcome_bind_Done {A B} (m : outcome A) (f : A → outcome B) b w :
  m ≫= f = Done b w ↔
  ∃ a w1 w2, m = Done a w1 ∧ f a = Done b w2 ∧ w = w1 ++ w2.
Proof.
  unfold mbind, outcome_mbind, outcome_bind. split.
  - destruct m as [a w1|e w1]; [|discriminate].
    destruct (f a) as [b' w2|e w2] eqn:Hf; [|discriminate].
    intros [= -> <-]. eauto 7.
  - intros (a & w1 & w2 & -> & -> & ->). reflexivity.
Qed.

Lemma outcome_bind_Thrown_l {A B} (f : A → outcome B) e w :
  Thrown e w ≫= f = Thrown e w.
Proof. reflexivity. Qed.

(** ** The assertion rewriter *)

Lemma j_callExpression_nil callee :
  j_callExpression callee [] = mret (CallExpression callee []).
Proof. reflexivity. Qed.

Lemma lookup_throws : tapeToJestExpect !! "throws" = Some SPECIAL_THROWS_CASE.
Proof. vm_compute. reflexivity. Qed.

Lemma lookup_doesNotThrow : tapeToJestExpect !! "doesNotThrow" = Some SPECIAL_THROWS_CASE.
Proof. vm_compute. reflexivity. Qed.

(** The callback on a throws-family call, with the table lookup done. *)
Lemma throws_callback_unfold member args :
  tapeToJestExpect !! member = Some SPECIAL_THROWS_CASE →
  updateAssertions_callback (t_call member args) =
    newCondition ←
      (if bool_decide (length args = 1%nat)
          || (bool_decide (length args = 2%nat)
              && from_option is_string_literal false (args !! 1%nat))
       then mret (CallExpression
                    (Identifier (if bool_decide (Some member = Some "throws")
                                 then "toThrow" else "not.toThrow")) [])
       else j_callExpression (Identifier "toThrowError") [args !! 1%nat]);
    expectCall ← j_callExpression (Identifier "expect") [args !! 0%nat];
    mret (j_memberExpression expectCall newCondition).
Proof.
  intros Hk. unfold updateAssertions_callback, t_call.
  cbn [name_of mbind option_bind]. rewrite Hk.
  rewrite bool_decide_eq_true_2 by reflexivity.
  unfold j_identifier. rewrite !outcome_ret_bind.
  destruct (_ || _); rewrite ?j_callExpression_nil, ?outcome_ret_bind; reflexivity.
Qed.


Lemma tapeToJestExpect_targets old new :
  tapeToJestExpect !! old = Some new →
  new = SPECIAL_THROWS_CASE ∨ new ∈ truthiness_targets ∨ new ∈ PROP_WITH_SECONDS_ARGS.
Proof.
  intros H. apply (elem_of_list_to_map_2 (M := gmap string)) in H.
  unfold tapeToJestExpect_entries in H.
  repeat (apply elem_of_cons in H as [[= -> ->]|H];
          [compute_done|]).
  by apply elem_of_nil in H.
Qed.

(** The callback on an ordinary entry of the table, with the lookup done. *)
Lemma mapping_callback_unfold old new args :
  tapeToJestExpect !! old = Some new →
  new ≠ SPECIAL_THROWS_CASE →
  updateAssertions_callback (t_call old args) =
    newCondition ←
      j_callExpression (Identifier new)
        (if bool_decide (new ∈ PROP_WITH_SECONDS_ARGS) then [args !! 1%nat] else []);
    expectCall ← j_callExpression (Identifier "expect") [args !! 0%nat];
    mret (j_memberExpression expectCall newCondition).
Proof.
  intros Hk Hnew. unfold updateAssertions_callback, t_call.
  cbn [name_of mbind option_bind]. rewrite Hk.
  rewrite bool_decide_eq_false_2 by congruence.
  unfold j_identifier. rewrite !outcome_ret_bind. reflexivity.
Qed.

(** ** Runs that finish *)


Lemma succeeds_ret {A} (a : A) : succeeds (mret a).
Proof. by exists a, []. Qed.

Lemma succeeds_bind {A B} (m : outcome A) (f : A → outcome B) :
  succeeds m → (∀ a, succeeds (f a)) → succeeds (m ≫= f).
Proof.
  intros (a & w & ->) Hf. destruct (Hf a) as (b & w' & Hb).
  exists b, (w ++ w'). apply outcome_bind_Done. eauto 7.
Qed.

(** Induction with the children of a node as a list. *)
Lemma node_children_ind (P : node → Prop) :
  (∀ n, Forall P (children n) → P n) → ∀ n, P n.
Proof.
  intros H. induction n using node_ind; apply H; cbn [children]; repeat constructor; assumption.
Qed.

Lemma subnodes_unfold n : subnodes n = n :: (children n ≫= subnodes).
Proof.
  destruct n; cbn [subnodes children mbind list_bind];
    rewrite ?app_nil_r, <-?app_assoc; reflexivity.
Qed.

Lemma subnodes_self n : n ∈ subnodes n.
Proof. rewrite subnodes_unfold. apply list_elem_of_here. Qed.

Lemma subnodes_child n c x : c ∈ children n → x ∈ subnodes c → x ∈ subnodes n.
Proof.
  intros Hc Hx. rewrite subnodes_unfold. apply list_elem_of_further.
  apply list_elem_of_bind. eauto.
Qed.

Lemma prune_slot_succeeds f x : succeeds (f x) → succeeds (prune_slot f x).
Proof.
  intros Hx. unfold prune_slot. apply succeeds_bind; [assumption|].
  intros [r kept]. apply succeeds_ret.
Qed.

Lemma prune_list_succeeds f l :
  Forall (λ x, succeeds (f x)) l → succeeds (prune_list f l).
Proof.
  induction 1 as [|x l Hx _ IH]; cbn [prune_list]; [apply succeeds_ret|].
  apply succeeds_bind; [assumption|]. intros [r kept].
  apply succeeds_bind; [exact IH|]. intros [rs kept']. apply succeeds_ret.
Qed.

Lemma prune_children_succeeds f n :
  Forall (λ x, succeeds (f x)) (children n) → succeeds (prune_children f n).
Proof.
  destruct n; cbn [children prune_children]; intros H;
    repeat match goal with
    | H : Forall _ (_ :: _) |- _ => apply Forall_cons in H; destruct H
    end;
    repeat first
      [ apply succeeds_ret
      | apply prune_slot_succeeds; assumption
      | apply prune_list_succeeds; assumption
      | apply succeeds_bind; [|intros [? ?]] ].
Qed.

Lemma pruneEnd_visit_unfold anc n :
  pruneEnd_visit anc n =
    if is_t_member "end" n then
      inScope ← inTestScope anc;
      '(n', kept) ← prune_children (pruneEnd_visit (n :: anc)) n;
      if (inScope : bool) then mret (None, kept) else mret (Some n', n :: kept)
    else
      match n with
      | ExpressionStatement e =>
          '(e', kept) ← pruneEnd_visit (n :: anc) e;
          mret (option_map ExpressionStatement e', kept)
      | _ =>
          '(n', kept) ← prune_children (pruneEnd_visit (n :: anc)) n;
          mret (Some n', kept)
      end.
Proof. destruct n; reflexivity. Qed.

(** With three nodes or more above it, as below any call of a parsed
    file, the walk over the end calls never throws. *)
Lemma pruneEnd_visit_succeeds n :
  ∀ anc, (3 ≤ length anc)%nat → succeeds (pruneEnd_visit anc n).
Proof.
  induction n as [n IH] using node_children_ind. intros anc Hlen.
  assert (Forall (λ x, succeeds (pruneEnd_visit (n :: anc) x)) (children n)) as Hch.
  { eapply Forall_impl; [exact IH|]. intros x Hx. apply Hx. cbn. lia. }
  rewrite pruneEnd_visit_unfold. destruct (is_t_member "end" n).
  - apply succeeds_bind.
    + unfold inTestScope. destruct (lookup_lt_is_Some_2 anc 2) as [o ->]; [lia|].
      apply succeeds_ret.
    + intros inScope. apply succeeds_bind; [by apply prune_children_succeeds|].
      intros [n' kept]. destruct inScope; apply succeeds_ret.
  - destruct n;
      try (apply succeeds_bind; [by apply prune_children_succeeds|];
           intros [? ?]; apply succeeds_ret).
    apply Forall_cons in Hch as [He _].
    apply succeeds_bind; [exact He|]. intros [? ?]. apply succeeds_ret.
Qed.

(** ** Runs that abort *)


Lemma aborts_bind_l {A B} (m : outcome A) (f : A → outcome B) :
  aborts m → aborts (m ≫= f).
Proof. intros (e & w & ->). by exists e, w. Qed.

Lemma aborts_bind_r {A B} (m : outcome A) (f : A → outcome B) :
  (∀ a w, m = Done a w → aborts (f a)) → aborts (m ≫= f).
Proof.
  intros Hf. destruct m as [a w|e w]; [|by exists e, w].
  destruct (Hf a w eq_refl) as (e & w' & He).
  exists e, (w ++ w'). unfold mbind, outcome_mbind, outcome_bind. by rewrite He.
Qed.

Lemma traverse_aborts {A B} (f : A → outcome B) l x :
  x ∈ l → aborts (f x) → aborts (traverse f l).
Proof.
  intros Hx Hf. induction l as [|y l IH]; [by apply elem_of_nil in Hx|].
  cbn [traverse]. apply elem_of_cons in Hx as [->|Hx].
  - by apply aborts_bind_l.
  - apply aborts_bind_r. intros ? ? _. apply aborts_bind_l. by apply IH.
Qed.

Lemma traverse_Done_elem {A B} (f : A → outcome B) l l' w x :
  traverse f l = Done l' w → x ∈ l → ∃ y w', f x = Done y w' ∧ y ∈ l'.
Proof.
  revert l' w. induction l as [|a l IH]; intros l' w Hl Hx;
    [by apply elem_of_nil in Hx|].
  cbn [traverse] in Hl.
  apply outcome_bind_Done in Hl as (y & w1 & w2 & Hy & Hl & _).
  apply outcome_bind_Done in Hl as (ys & w3 & w4 & Hys & [= <- _] & _).
  apply elem_of_cons in Hx as [->|Hx].
  - exists y, w1. split; [assumption|]. apply list_elem_of_here.
  - destruct (IH _ _ Hys Hx) as (z & wz & Hz & Hin).
    exists z, wz. split; [assumption|]. by apply list_elem_of_further.
Qed.

(** What the tree passes do to a file: they walk its statements. *)
Lemma updateAssertions_file body r w :
  updateAssertions (File (Program body)) = Done r w →
  ∃ body', r = File (Program body')
           ∧ traverse (updateAssertions_visit false) body = Done body' w.
Proof.
  unfold updateAssertions. cbn [updateAssertions_visit is_tape_assertion traverse_children].
  intros H. apply outcome_bind_Done in H as (p & w1 & w2 & Hp & [= <- <-] & ->).
  apply outcome_bind_Done in Hp as (b & w3 & w4 & Hb & [= <- <-] & ->).
  exists b. by rewrite !app_nil_r.
Qed.

Lemma updateTapeComments_file body r w :
  updateTapeComments (File (Program body)) = Done r w →
  ∃ body', r = File (Program body')
           ∧ traverse updateTapeComments_visit body = Done body' w.
Proof.
  unfold updateTapeComments. cbn [updateTapeComments_visit is_t_member traverse_children].
  intros H. apply outcome_bind_Done in H as (p & w1 & w2 & Hp & [= <- <-] & ->).
  apply outcome_bind_Done in Hp as (b & w3 & w4 & Hb & [= <- <-] & ->).
  exists b. by rewrite !app_nil_r.
Qed.

Lemma rewriteTestCallExpression_tree_file name body :
  rewriteTestCallExpression_tree (height (File (Program body))) name [] (File (Program body)) =
    body' ← traverse
      (rewriteTestCallExpression_tree (max_list (height <$> body)) name
         [Program body; File (Program body)]) body;
    mret (File (Program body')).
Proof.
  change (height (File (Program body))) with (S (S (max_list (height <$> body)))).
  generalize (max_list (height <$> body)). intros k.
  do 2 (cbn [rewriteTestCallExpression_tree traverse_children];
        unfold rewriteTestCallExpression_at; cbn [is_test_call];
        rewrite ?outcome_ret_bind).
  cbn [traverse_children].
  destruct (traverse _ body) as [b w|e w]; cbn; rewrite ?app_nil_r; reflexivity.
Qed.

Lemma quietly_Done {A} (m : outcome A) a w :
  quietly m = Done a w → w = [] ∧ ∃ w', m = Done a w'.
Proof. destruct m; [|discriminate]. intros [= <- <-]. eauto. Qed.

(** The tree a finished pass returns is the one the tree walk computes,
    and its log is that of the callbacks. *)
Lemma rewriteTestCallExpression_Done name ast r w :
  rewriteTestCallExpression name ast = Done r w →
  runCallbacks name false [] ast = Done () w
  ∧ ∃ w', rewriteTestCallExpression_tree (height ast) name [] ast = Done r w'.
Proof.
  unfold rewriteTestCallExpression. intros H.
  apply outcome_bind_Done in H as ([] & w1 & w2 & Hrun & H & ->).
  apply quietly_Done in H as (-> & w' & H). rewrite app_nil_r. eauto.
Qed.

(** ** The test-registration rewriter *)

Lemma forEach_child_children f n : forEach_child f n = forEach f (children n).
Proof. destruct n; reflexivity. Qed.

Lemma runCallbacks_unfold name inside anc n :
  runCallbacks name inside anc n =
    _ ← (if is_test_call name n then
           p ← (if inside then afterPrune anc n else mret n);
           _ ← rewriteTestCallExpression_callback anc p;
           mret ()
         else mret ());
    forEach (runCallbacks name (inside || is_test_call name n) (n :: anc)) (children n).
Proof. rewrite <-forEach_child_children. destruct n; reflexivity. Qed.

Lemma forEach_aborts {A} (f : A → outcome unit) l x :
  x ∈ l → aborts (f x) → aborts (forEach f l).
Proof. intros Hx Hf. by apply aborts_bind_l, (traverse_aborts _ _ _ Hx). Qed.

Lemma forEach_id {A} (f : A → outcome unit) l :
  (∀ x, x ∈ l → f x = Done () []) → forEach f l = Done () [].
Proof.
  intros H. unfold forEach.
  assert (∃ us, traverse f l = Done us []) as [us ->]; [|reflexivity].
  induction l as [|x l IH]; [by eexists|]. cbn [traverse].
  rewrite (H x) by apply list_elem_of_here.
  destruct IH as [us ->]; [intros y Hy; by apply H, list_elem_of_further|].
  by eexists.
Qed.

Lemma runCallbacks_id name n :
  ∀ inside anc,
    (∀ x, x ∈ subnodes n → is_test_call name x = false) →
    runCallbacks name inside anc n = Done () [].
Proof.
  induction n as [n IH] using node_children_ind. intros inside anc Hno.
  rewrite Forall_forall in IH. rewrite runCallbacks_unfold.
  rewrite (Hno _ (subnodes_self _)), outcome_ret_bind.
  apply forEach_id. intros c Hc. apply IH; [assumption|].
  intros x Hx. eapply Hno, subnodes_child; eassumption.
Qed.

(** A call of the test function without arguments: the callback reads
    [lastArg.type] of an undefined [lastArg]. *)
Lemma callback_zero_arguments anc name :
  rewriteTestCallExpression_callback anc (CallExpression (Identifier name) [])
    = Thrown (TypeError "Cannot read properties of undefined (reading 'type')") [].
Proof.
  unfold rewriteTestCallExpression_callback, pruneEnds. cbn.
  unfold renameCallee. case_bool_decide; reflexivity.
Qed.

Lemma zero_arguments_inv name x :
  is_test_call name x = true → arguments_of x = [] →
  x = CallExpression (Identifier name) [].
Proof.
  destruct x as [| | | | | | | | | |c args| | | | | | |]; try discriminate.
  cbn [is_test_call arguments_of]. intros Hc%bool_decide_eq_true ->.
  destruct c; try discriminate. by injection Hc as ->.
Qed.

(** Wherever it is in the tree, its path has been collected and its
    callback runs. *)
Lemma runCallbacks_zero_arguments name n :
  ∀ inside anc,
    CallExpression (Identifier name) [] ∈ subnodes n →
    aborts (runCallbacks name inside anc n).
Proof.
  induction n as [n IH] using node_children_ind. intros inside anc Hin.
  rewrite Forall_forall in IH. rewrite runCallbacks_unfold.
  rewrite subnodes_unfold in Hin. apply elem_of_cons in Hin as [<-|Hin].
  - apply aborts_bind_l. cbn [is_test_call name_of].
    rewrite bool_decide_eq_true_2 by reflexivity.
    apply aborts_bind_r. intros p w Hp. apply aborts_bind_l.
    assert (p = CallExpression (Identifier name) []) as ->.
    { destruct inside; cbn in Hp; by injection Hp as <- _. }
    rewrite callback_zero_arguments. by eexists _, _.
  - apply list_elem_of_bind in Hin as (c & Hx & Hc).
    apply aborts_bind_r. intros _ _ _.
    apply (forEach_aborts _ _ c Hc). by apply IH.
Qed.

Lemma rewriteTestCallExpression_zero_arguments name ast :
  CallExpression (Identifier name) [] ∈ subnodes ast →
  aborts (rewriteTestCallExpression name ast).
Proof. intros Hin. by apply aborts_bind_l, runCallbacks_zero_arguments. Qed.

Lemma removeRequireAndImport_file pkg body :
  removeRequireAndImport (File (Program body)) pkg =
    (head (omap (binding_of pkg) body),
     File (Program (filter (λ stmt, binding_of pkg stmt = None) body))).
Proof. reflexivity. Qed.

(** C1 on the code: the options loop does set the callee of
    [test('x', { skip: true }, t => { t.ok(a); })] to [test.skip] and drops
    the options object, but the renaming that follows compares the callee
    with [xit] and overwrites it, so the run ends with a plain [test]
    call; no call leaves the renaming step as [test.skip]. *)
Theorem skip_option_overwritten :
  convertTapeOptions test_with_skip
    = Done (CallExpression (Identifier "test.skip")
              [Literal (LString "x");
               test_callback [ExpressionStatement (t_call "ok" [Identifier "a"])]]) []
  ∧ run_transforms file_skip
    = Done (File (Program
        [call_stmt (Identifier "test")
           [Literal (LString "x");
            ArrowFunctionExpression ["()"]
              (BlockStatement
                 [ExpressionStatement (expect_that (Identifier "a") "toBeTruthy" [])])]])) []
  ∧ ∀ p, callee_name (renameCallee p) ≠ Some "test.skip".
Proof.
  split; [vm_compute; reflexivity|]. split; [vm_compute; reflexivity|].
  intros p. unfold renameCallee. case_bool_decide as Hx.
  - destruct p as [| | | | | | | | | |c args| | | | | | |]; try discriminate.
    destruct c; discriminate.
  - intros Hp. rewrite Hp in Hx. discriminate.
Qed.

(** C5 on the code: an end call that is a statement of the test callback
    is deleted, and one inside a nested callback is kept with a warning;
    but the test looks three nodes up instead of at the enclosing
    function, so [t.end()] inside an [if] block of the test callback is
    kept as well, with the warning about callbacks. *)
Theorem end_call_in_block_kept :
  run_transforms file_end_direct
    = Done (File (Program
        [call_stmt (Identifier "test")
           [Literal (LString "x");
            ArrowFunctionExpression ["()"]
              (BlockStatement
                 [ExpressionStatement (t_call "plan" [Literal (LNumber 1)])])]])) []
  ∧ result_of (run_transforms file_end_nested)
    = Some (File (Program
        [call_stmt (Identifier "test")
           [Literal (LString "x");
            ArrowFunctionExpression ["()"]
              (BlockStatement
                 [call_stmt (Identifier "setTimeout")
                    [ArrowFunctionExpression [] (t_call "end" []);
                     Literal (LNumber 0)]])]]))
  ∧ messages_of (run_transforms file_end_nested)
    = ["t.end is currently not supported in callbacks (maybe return a promise)"]
  ∧ result_of (run_transforms file_end_in_block)
    = Some (File (Program
        [call_stmt (Identifier "test")
           [Literal (LString "x");
            ArrowFunctionExpression ["()"]
              (BlockStatement
                 [IfStatement (Identifier "c") (BlockStatement [end_stmt]) Absent])]]))
  ∧ messages_of (run_transforms file_end_in_block)
    = ["t.end is currently not supported in callbacks (maybe return a promise)"].
Proof. repeat split; vm_compute; reflexivity. Qed.


(** The end-call walk over [name(title, (ps) => body)] only has the body
    to look at. *)
Lemma pruneEnds_registration anc name title ps body :
  let p := CallExpression (Identifier name)
             [Literal title; ArrowFunctionExpression ps body] in
  pruneEnds anc p =
    '(r, kept) ← pruneEnd_visit (ArrowFunctionExpression ps body :: p :: anc) body;
    mret (CallExpression (Identifier name)
            [Literal title; ArrowFunctionExpression ps (default Absent r)], kept).
Proof.
  intros p. unfold pruneEnds, p.
  cbn [prune_children prune_slot prune_list pruneEnd_visit is_t_member].
  rewrite !outcome_ret_bind.
  cbn [prune_children prune_slot prune_list pruneEnd_visit is_t_member].
  unfold prune_slot.
  destruct (pruneEnd_visit _ body) as [[r kept] w|e w]; cbn;
    rewrite ?app_nil_r; reflexivity.
Qed.

Lemma convertTapeOptions_registration name title ps body :
  let p := CallExpression (Identifier name)
             [Literal title; ArrowFunctionExpression ps body] in
  convertTapeOptions p = Done p [].
Proof. vm_compute. reflexivity. Qed.

Lemma removeTParameter_registration name title ps body :
  removeTParameter
    (renameCallee
       (CallExpression (Identifier name)
          [Literal title; ArrowFunctionExpression ps body]))
  = arrowFunction ← j_arrowFunctionExpression ["()"] body;
    mret (CallExpression
            (Identifier (if bool_decide (name = "xit") then "xit" else "test"))
            [Literal title; arrowFunction]).
Proof.
  unfold renameCallee. cbn [callee_name name_of].
  destruct (decide (name = "xit")) as [->|Hne].
  - reflexivity.
  - rewrite bool_decide_eq_true_2 by congruence.
    rewrite (bool_decide_eq_false_2 (name = "xit")) by assumption. reflexivity.
Qed.

(** What the end-call walk leaves of a block is a block. *)
Lemma pruneEnd_visit_BlockStatement anc stmts r kept w :
  pruneEnd_visit anc (BlockStatement stmts) = Done (r, kept) w →
  ∃ stmts', r = Some (BlockStatement stmts').
Proof.
  cbn [pruneEnd_visit is_t_member prune_children]. intros H.
  apply outcome_bind_Done in H as ([n' k] & w1 & w2 & H1 & H2 & _).
  apply outcome_bind_Done in H1 as ([b' k'] & w3 & w4 & _ & H1 & _).
  cbn in H1, H2. injection H1; injection H2; intros; subst. eauto.
Qed.

Lemma rewriteTestCallExpression_tree_Identifier fuel name anc x :
  rewriteTestCallExpression_tree fuel name anc (Identifier x) = mret (Identifier x).
Proof. destruct fuel; reflexivity. Qed.

(** No callback runs at a call whose callee is a member of the test
    function: the collected paths below it are those of its callback
    body. *)
Lemma runCallbacks_member_callee name member title ps body inside anc :
  let p := CallExpression (MemberExpression (Identifier name) (Identifier member) false)
             [Literal title; ArrowFunctionExpression ps body] in
  runCallbacks name inside anc p
  = runCallbacks name inside (ArrowFunctionExpression ps body :: p :: anc) body.
Proof.
  intros p. unfold p.
  rewrite runCallbacks_unfold. cbn [is_test_call name_of children].
  rewrite bool_decide_eq_false_2 by discriminate.
  rewrite outcome_ret_bind, orb_false_r.
  unfold forEach. cbn [traverse].
  rewrite (runCallbacks_id name (MemberExpression _ _ _))
    by (intros x Hx; cbn in Hx;
        repeat (apply elem_of_cons in Hx as [->|Hx]; [reflexivity|]);
        by apply elem_of_nil in Hx).
  rewrite (runCallbacks_id name (Literal _))
    by (intros x Hx; cbn in Hx;
        repeat (apply elem_of_cons in Hx as [->|Hx]; [reflexivity|]);
        by apply elem_of_nil in Hx).
  rewrite (runCallbacks_unfold _ _ _ (ArrowFunctionExpression ps body)).
  cbn [is_test_call children]. rewrite outcome_ret_bind, orb_false_r.
  unfold forEach. cbn [traverse].
  destruct (runCallbacks name inside _ body) as [[] w|e w];
    cbn; rewrite ?app_nil_r; reflexivity.
Qed.



(** ** Imports survive no pass

    The three passes that change the tree never make a statement that
    requires or imports a package out of one that does not.  They share
    the way they walk: at a node a pass either leaves the node alone, or
    walks its children with a pass of the same family, or puts a call or a
    member expression there whose callee is not [require]. *)


Lemma traverse_Done_nil {A B} (f : A → outcome B) l w :
  traverse f l = Done [] w → l = [].
Proof.
  destruct l as [|x l]; [done|]. cbn [traverse]. intros H.
  apply outcome_bind_Done in H as (y & w1 & w2 & _ & H & _).
  apply outcome_bind_Done in H as (ys & w3 & w4 & _ & H & _). discriminate.
Qed.

Lemma traverse_Done_cons {A B} (f : A → outcome B) l y ys w :
  traverse f l = Done (y :: ys) w →
  ∃ x xs w1 w2, l = x :: xs ∧ f x = Done y w1 ∧ traverse f xs = Done ys w2.
Proof.
  destruct l as [|x l]; [discriminate|]. cbn [traverse]. intros H.
  apply outcome_bind_Done in H as (y' & w1 & w2 & Hy & H & _).
  apply outcome_bind_Done in H as (ys' & w3 & w4 & Hys & [= <- <-] & _).
  eauto 10.
Qed.

Lemma traverse_Done_elem_inv {A B} (f : A → outcome B) l l' w y :
  traverse f l = Done l' w → y ∈ l' → ∃ x w', x ∈ l ∧ f x = Done y w'.
Proof.
  revert l w. induction l' as [|z l' IH]; intros l w Hl Hy;
    [by apply elem_of_nil in Hy|].
  apply traverse_Done_cons in Hl as (x & xs & w1 & w2 & -> & Hx & Hxs).
  apply elem_of_cons in Hy as [->|Hy].
  - exists x, w1. split; [apply list_elem_of_here|assumption].
  - destruct (IH _ _ Hxs Hy) as (x' & w' & Hin & Hx').
    exists x', w'. split; [by apply list_elem_of_further|assumption].
Qed.

(** Inverting one step of a walk. *)
Ltac invert_walk H :=
  cbn [traverse_children] in H;
  repeat (apply outcome_bind_Done in H as (? & ? & ? & ? & H & ?));
  try discriminate H.

Section walker.
Variable P : (node → outcome node) → Prop.
Hypothesis P_walker : walker P.

Lemma walker_Identifier F n x w :
  P F → F n = Done (Identifier x) w → n = Identifier x.
Proof.
  intros HF Hn. destruct (P_walker F HF n) as [H|[(G & HG & H)|H]].
  - rewrite H in Hn. by injection Hn as ->.
  - rewrite H in Hn. destruct n; invert_walk Hn. by injection Hn as ->.
  - destruct (H _ _ Hn).
Qed.

Lemma walker_Literal F n v w :
  P F → F n = Done (Literal v) w → n = Literal v.
Proof.
  intros HF Hn. destruct (P_walker F HF n) as [H|[(G & HG & H)|H]].
  - rewrite H in Hn. by injection Hn as ->.
  - rewrite H in Hn. destruct n; invert_walk Hn. by injection Hn as ->.
  - destruct (H _ _ Hn).
Qed.

Lemma required_package_inv e src :
  required_package e = Some src →
  e = CallExpression (Identifier "require") [Literal (LString src)].
Proof.
  destruct e as [| | | | | | | | | |c args| | | | | | |]; try discriminate.
  destruct args as [|a [|]]; try discriminate.
  - destruct a as [| | | | | | | | |v| | | | | | | |]; try discriminate.
    destruct v; try discriminate. cbn [required_package].
    case_bool_decide as Hc; [|discriminate]. intros [= ->].
    destruct c; try discriminate. by injection Hc as ->.
  - destruct a as [| | | | | | | | |v| | | | | | | |]; try discriminate.
    destruct v; discriminate.
Qed.

Lemma walker_required_package F e e' w src :
  P F → F e = Done e' w → required_package e' = Some src → e = e'.
Proof.
  intros HF He Hsrc. apply required_package_inv in Hsrc as ->.
  destruct (P_walker F HF e) as [H|[(G & HG & H)|H]].
  - rewrite H in He. by injection He as ->.
  - rewrite H in He. destruct e; invert_walk He.
    injection He; intros; subst.
    match goal with
    | Hc : G _ = Done _ _, Ha : traverse G _ = Done _ _ |- _ =>
        apply (walker_Identifier G _ _ _ HG) in Hc as ->;
        apply traverse_Done_cons in Ha as (a & rest & ? & ? & -> & Ha & Hr);
        apply traverse_Done_nil in Hr as ->;
        apply (walker_Literal G _ _ _ HG) in Ha as ->
    end.
    reflexivity.
  - destruct (H _ _ He). reflexivity.
Qed.

Lemma binding_of_inv pkg s l :
  binding_of pkg s = Some l →
  s = ImportDeclaration l pkg
  ∨ ∃ k e, s = VariableDeclaration k [VariableDeclarator l e]
           ∧ required_package e = Some pkg.
Proof.
  destruct s as [| |l' src|k ds| | | | | | | | | | | | | |]; try discriminate;
    cbn [binding_of].
  - case_bool_decide as Hs; [|discriminate]. intros [= ->]. left. by rewrite Hs.
  - destruct ds as [|d [|]]; try discriminate; destruct d; try discriminate.
    case_bool_decide as Hs; [|discriminate]. intros [= ->]. right. eauto.
Qed.

Lemma walker_declarator F d l e' w src :
  P F → F d = Done (VariableDeclarator l e') w → required_package e' = Some src →
  d = VariableDeclarator l e'.
Proof.
  intros HF Hd Hsrc. destruct (P_walker F HF d) as [H|[(G & HG & H)|H]].
  - rewrite H in Hd. by injection Hd as ->.
  - rewrite H in Hd. destruct d; invert_walk Hd. injection Hd; intros; subst.
    match goal with
    | He : G _ = Done _ _ |- _ =>
        by rewrite (walker_required_package G _ _ _ _ HG He Hsrc)
    end.
  - destruct (H _ _ Hd).
Qed.

(** A statement a walk hands back binds a package only if it did
    before. *)
Lemma walker_binding F s s' w pkg l :
  P F → F s = Done s' w → binding_of pkg s' = Some l → binding_of pkg s = Some l.
Proof.
  intros HF Hs Hb. destruct (P_walker F HF s) as [H|[(G & HG & H)|H]].
  - rewrite H in Hs. by injection Hs as ->.
  - rewrite H in Hs.
    destruct (binding_of_inv _ _ _ Hb) as [->|(k & e & -> & He)].
    + destruct s; invert_walk Hs. by injection Hs as -> ->.
    + destruct s; invert_walk Hs. injection Hs; intros; subst.
      match goal with
      | Hds : traverse G _ = Done _ _ |- _ =>
          apply traverse_Done_cons in Hds as (d & rest & ? & ? & -> & Hd & Hr);
          apply traverse_Done_nil in Hr as ->;
          rewrite (walker_declarator G _ _ _ _ _ HG Hd He)
      end.
      exact Hb.
  - destruct (binding_of_inv _ _ _ Hb) as [->|(k & e & -> & He)];
      destruct (H _ _ Hs).
Qed.

Lemma walker_no_binding F body body' w pkg :
  P F → traverse F body = Done body' w →
  Forall (λ s, binding_of pkg s = None) body →
  Forall (λ s, binding_of pkg s = None) body'.
Proof.
  intros HF Hb Hnone. apply Forall_forall. intros s' Hin.
  destruct (traverse_Done_elem_inv _ _ _ _ _ Hb Hin) as (s & w' & Hs & Hrun).
  destruct (binding_of pkg s') as [l|] eqn:Hl; [|reflexivity].
  apply (walker_binding F _ _ _ _ _ HF Hrun) in Hl.
  rewrite Forall_forall in Hnone. by rewrite (Hnone s Hs) in Hl.
Qed.
End walker.

(** *** The assertion rewriter and the comment rewriter are walkers *)

Lemma updateAssertions_callback_member p n' w :
  updateAssertions_callback p = Done n' w → ∃ o pr, n' = MemberExpression o pr false.
Proof.
  unfold updateAssertions_callback.
  destruct p as [| | | | | | | | | |c args| | | | | | |]; try discriminate.
  destruct c; try discriminate. intros H.
  apply outcome_bind_Done in H as (cond & ? & ? & _ & H & _).
  apply outcome_bind_Done in H as (e & ? & ? & _ & [= <- _] & _).
  unfold j_memberExpression. eauto.
Qed.

Lemma is_tape_assertion_callee c args :
  is_tape_assertion (CallExpression c args) = true → name_of c = None.
Proof. destruct c; (discriminate || reflexivity). Qed.


Lemma updateAssertions_walker : walker updateAssertions_walk.
Proof.
  intros F [detached ->] n. right.
  destruct n as [| | | | | | | | | |c args| | | | | | |];
    try (left; exists (updateAssertions_visit false); split;
         [by exists false|reflexivity]).
  cbn [updateAssertions_visit].
  destruct (is_tape_assertion (CallExpression c args)) eqn:Hm;
    [|left; exists (updateAssertions_visit false); split; [by exists false|reflexivity]].
  right. intros n' w H.
  apply outcome_bind_Done in H as (? & ? & ? & _ & H & _).
  apply outcome_bind_Done in H as (args' & ? & ? & _ & H & _).
  destruct detached.
  - injection H as <- _. cbn. by rewrite (is_tape_assertion_callee _ _ Hm).
  - apply updateAssertions_callback_member in H as (o & pr & ->). exact I.
Qed.


Lemma updateTapeComments_walker : walker updateTapeComments_walk.
Proof.
  intros F -> n. right.
  destruct n as [| | | | | | | | | |c args| | | | | | |];
    try (left; exists updateTapeComments_visit; split; reflexivity).
  cbn [updateTapeComments_visit].
  destruct (is_t_member "comment" (CallExpression c args));
    [|left; exists updateTapeComments_visit; split; reflexivity].
  right. intros n' w H.
  apply outcome_bind_Done in H as (args' & ? & ? & _ & [= <- _] & _).
  cbn. discriminate.
Qed.

(** *** The test-registration rewriter is a walker *)


Lemma foldM_invariant {A} (I : node → Prop) (f : node → A → outcome node) l :
  (∀ p x p' w, f p x = Done p' w → I p → I p') →
  ∀ p p' w, foldM f l p = Done p' w → I p → I p'.
Proof.
  intros Hf. induction l as [|x l IH]; intros p p' w H Hp; cbn [foldM] in H.
  - by injection H as <- _.
  - apply outcome_bind_Done in H as (p1 & ? & ? & H1 & H & _). eauto.
Qed.

Lemma set_callee_name_identifier_call x p :
  identifier_call p → identifier_call (set_callee_name x p).
Proof. intros (y & args & ->). by eexists _, _. Qed.

Lemma set_arguments_identifier_call args p :
  identifier_call p → identifier_call (set_arguments args p).
Proof. intros (y & args' & ->). by eexists _, _. Qed.

Lemma convertTapeOption_identifier_call p o p' w :
  convertTapeOption p o = Done p' w → identifier_call p → identifier_call p'.
Proof.
  unfold convertTapeOption. destruct o; try discriminate. intros H Hp.
  apply outcome_bind_Done in H as (? & ? & ? & _ & [= <- _] & _).
  destruct (_ && _); [by apply set_callee_name_identifier_call|assumption].
Qed.

Lemma convertTapeArgument_identifier_call p a p' w :
  convertTapeArgument p a = Done p' w → identifier_call p → identifier_call p'.
Proof.
  unfold convertTapeArgument. destruct (is_ObjectExpression a).
  - intros H Hp. apply outcome_bind_Done in H as (p1 & ? & ? & H1 & [= <- _] & _).
    apply set_arguments_identifier_call.
    by eapply (foldM_invariant identifier_call), Hp;
      [apply convertTapeOption_identifier_call|].
  - by intros [= <- _].
Qed.

Lemma convertTapeOptions_identifier_call p p' w :
  convertTapeOptions p = Done p' w → identifier_call p → identifier_call p'.
Proof.
  unfold convertTapeOptions.
  apply (foldM_invariant identifier_call), convertTapeArgument_identifier_call.
Qed.

Lemma renameCallee_identifier_call p :
  identifier_call p →
  ∃ x args, renameCallee p = CallExpression (Identifier x) args
            ∧ (x = "test" ∨ x = "xit").
Proof.
  intros (y & args & ->). unfold renameCallee. cbn [callee_name name_of].
  case_bool_decide as Hy; cbn [set_callee_name].
  - eauto.
  - exists y, args. split; [reflexivity|]. right. congruence.
Qed.

Lemma j_arrowFunctionExpression_Done ps body a w :
  j_arrowFunctionExpression ps body = Done a w →
  a = ArrowFunctionExpression ps body ∧ w = [].
Proof. destruct body; cbn; intros H; try discriminate; by injection H as <- <-. Qed.

(** The parameter stripping, where it finishes: the call has a last
    argument, and an arrow function among them has a body. *)
Lemma removeTParameter_Done p p' w :
  removeTParameter p = Done p' w →
  w = [] ∧
  ∃ lastArg, last (arguments_of p) = Some lastArg ∧
    p' = match lastArg with
         | ArrowFunctionExpression _ body =>
             set_arguments (<[pred (length (arguments_of p))
                              := ArrowFunctionExpression ["()"] body]> (arguments_of p)) p
         | FunctionExpression _ body =>
             set_arguments (<[pred (length (arguments_of p))
                              := FunctionExpression [EmptyString] body]> (arguments_of p)) p
         | _ => p
         end.
Proof.
  unfold removeTParameter.
  destruct (last (arguments_of p)) as [lastArg|]; [|discriminate].
  destruct lastArg; try discriminate; cbn [mbind outcome_mbind];
    try (intros [= <- <-]; split; [reflexivity|]; eexists; split; reflexivity).
  intros H. apply outcome_bind_Done in H as (a & w1 & w2 & Ha & H & ->).
  apply j_arrowFunctionExpression_Done in Ha as [-> ->].
  injection H as <- <-. split; [reflexivity|]. eexists; split; reflexivity.
Qed.

Lemma removeTParameter_callee x args p' w :
  removeTParameter (CallExpression (Identifier x) args) = Done p' w →
  ∃ args', p' = CallExpression (Identifier x) args'.
Proof.
  intros (_ & lastArg & _ & ->)%removeTParameter_Done.
  cbn [arguments_of set_arguments]. destruct lastArg; eauto.
Qed.

Lemma pruneEnds_identifier_call anc x args p1 kept w :
  pruneEnds anc (CallExpression (Identifier x) args) = Done (p1, kept) w →
  identifier_call p1.
Proof.
  unfold pruneEnds. cbn [prune_children]. unfold prune_slot.
  cbn [pruneEnd_visit is_t_member prune_children].
  rewrite !outcome_ret_bind. intros H.
  apply outcome_bind_Done in H as ([args' k2] & ? & ? & _ & [= <- _] & _).
  by eexists _, _.
Qed.

Lemma is_test_call_inv name n :
  is_test_call name n = true → ∃ args, n = CallExpression (Identifier name) args.
Proof.
  destruct n as [| | | | | | | | | |c args| | | | | | |]; try discriminate.
  cbn [is_test_call]. intros Hc%bool_decide_eq_true.
  destruct c; try discriminate. injection Hc as ->. eauto.
Qed.

(** What the callback leaves is a call of [test] or of [xit]. *)
Lemma rewriteTestCallExpression_callback_callee name anc n n1 w :
  is_test_call name n = true →
  rewriteTestCallExpression_callback anc n = Done n1 w →
  ∃ x args, n1 = CallExpression (Identifier x) args ∧ (x = "test" ∨ x = "xit").
Proof.
  intros (args & ->)%is_test_call_inv. unfold rewriteTestCallExpression_callback.
  intros H.
  apply outcome_bind_Done in H as ([p1 kept] & ? & ? & Hprune & H & _).
  apply outcome_bind_Done in H as (? & ? & ? & _ & H & _).
  apply outcome_bind_Done in H as (p2 & ? & ? & Hopt & H & _).
  apply pruneEnds_identifier_call in Hprune.
  apply convertTapeOptions_identifier_call in Hopt; [|assumption].
  destruct (renameCallee_identifier_call _ Hopt) as (callee & args2 & Hc & Hname).
  rewrite Hc in H. apply removeTParameter_callee in H as (args3 & ->). eauto.
Qed.


Lemma rewriteTestCallExpression_walker : walker rewriteTestCallExpression_walk.
Proof.
  intros F (fuel & name & anc & ->) n.
  destruct fuel as [|fuel]; [by left|]. right.
  cbn [rewriteTestCallExpression_tree]. unfold rewriteTestCallExpression_at.
  destruct (is_test_call name n) eqn:Hm.
  - right. intros n' w H.
    apply outcome_bind_Done in H as (n1 & ? & ? & Hcb & H & _).
    destruct (rewriteTestCallExpression_callback_callee _ _ _ _ _ Hm Hcb)
      as (callee & args & -> & Hx).
    invert_walk H. rewrite rewriteTestCallExpression_tree_Identifier in *.
    injection H; intros; subst.
    match goal with
    | Hc : mret _ = Done _ _ |- _ => injection Hc; intros; subst
    end.
    cbn. destruct Hx as [->| ->]; discriminate.
  - left. eexists. split; [by eexists _, _, _|]. by rewrite outcome_ret_bind.
Qed.

(** ** The gate on the import *)

Lemma hasRequireOrImport_false ast pkg :
  hasRequireOrImport ast pkg = false ↔
  Forall (λ s, binding_of pkg s = None) (program_body ast).
Proof.
  unfold hasRequireOrImport. rewrite bool_decide_eq_false, Forall_forall, Exists_exists.
  split.
  - intros Hno s Hin. destruct (binding_of pkg s) eqn:Hs; [|reflexivity].
    destruct Hno. exists s. rewrite Hs. eauto.
  - intros Hall (s & Hin & l & Hl). by rewrite (Hall s Hin) in Hl.
Qed.

Lemma no_binding_omap pkg body :
  Forall (λ s, binding_of pkg s = None) body →
  omap (binding_of pkg) body = []
  ∧ filter (λ s, binding_of pkg s = None) body = body.
Proof.
  induction 1 as [|s body Hs _ [IH1 IH2]]; [done|]. split.
  - cbn. by rewrite Hs.
  - rewrite filter_cons_True by assumption. by rewrite IH2.
Qed.

(** Without a statement that requires or imports the package the helper
    changes nothing and returns nothing. *)
Lemma removeRequireAndImport_absent ast pkg :
  hasRequireOrImport ast pkg = false → removeRequireAndImport ast pkg = (None, ast).
Proof.
  intros H%hasRequireOrImport_false.
  destruct ast as [p| | | | | | | | | | | | | | | | |]; try reflexivity.
  destruct p as [|body| | | | | | | | | | | | | | | |]; try reflexivity.
  cbn [program_body] in H. destruct (no_binding_omap _ _ H) as [H1 H2].
  unfold removeRequireAndImport. by rewrite H1, H2.
Qed.

(** What the helper hands back requires and imports the package no more,
    and a name comes only out of a file. *)
Lemma removeRequireAndImport_complete ast pkg name ast1 :
  removeRequireAndImport ast pkg = (name, ast1) →
  hasRequireOrImport ast1 pkg = false
  ∧ (name ≠ None → ∃ body, ast1 = File (Program body)).
Proof.
  destruct ast as [p| | | | | | | | | | | | | | | | |];
    try (intros [= <- <-]; split; [reflexivity|done]).
  destruct p as [|body| | | | | | | | | | | | | | | |];
    try (intros [= <- <-]; split; [reflexivity|done]).
  rewrite removeRequireAndImport_file. intros [= <- <-]. split; [|eauto].
  apply hasRequireOrImport_false, Forall_forall. intros s Hin.
  by apply list_elem_of_filter in Hin as [Hs _].
Qed.

(** The passes leave a file that requires and imports no [pkg] that way. *)
Lemma transforms_no_binding name body ast' w pkg :
  transforms name (File (Program body)) = Done ast' w →
  Forall (λ s, binding_of pkg s = None) body →
  hasRequireOrImport ast' pkg = false.
Proof.
  unfold transforms. intros H Hnone.
  apply outcome_bind_Done in H as (? & ? & ? & _ & H & _).
  apply outcome_bind_Done in H as (? & ? & ? & _ & H & _).
  apply outcome_bind_Done in H as (ast1 & ? & ? & H1 & H & _).
  apply outcome_bind_Done in H as (ast2 & ? & ? & H2 & H & _).
  apply outcome_bind_Done in H as (ast3 & ? & ? & H3 & H & _).
  apply outcome_bind_Done in H as (? & ? & ? & _ & [= <- _] & _).
  apply updateAssertions_file in H1 as (body1 & -> & H1).
  apply updateTapeComments_file in H2 as (body2 & -> & H2).
  apply rewriteTestCallExpression_Done in H3 as (_ & w3 & H3).
  rewrite rewriteTestCallExpression_tree_file in H3.
  apply outcome_bind_Done in H3 as (body3 & ? & ? & H3 & [= <- _] & _).
  apply hasRequireOrImport_false. cbn [program_body].
  eapply (walker_no_binding _ rewriteTestCallExpression_walker);
    [by eexists _, _, _|exact H3|].
  eapply (walker_no_binding _ updateTapeComments_walker); [reflexivity|exact H2|].
  eapply (walker_no_binding _ updateAssertions_walker); [by exists false|exact H1|].
  assumption.
Qed.

(** The gate of [tapeToJest]: nothing to remove, nothing to do. *)
Lemma tapeToJest_absent
    (parse : string → option node) (toSource : node → string → string)
    (detectQuoteStyle : node → option string) (source : string) (ast : node) :
  parse source = Some ast →
  hasRequireOrImport ast "tape" = false →
  tapeToJest parse toSource detectQuoteStyle source = Done source [].
Proof.
  intros Hparse Habsent. apply removeRequireAndImport_absent in Habsent.
  unfold tapeToJest. by rewrite Hparse, Habsent.
Qed.

(** C4: a file that neither requires nor imports tape is left alone by the
    import helper, and the transform returns its source text as it is,
    without a warning. *)
Theorem no_import_returns_source
    (parse : string → option node) (toSource : node → string → string)
    (detectQuoteStyle : node → option string) (source : string) (ast : node) :
  parse source = Some ast →
  hasRequireOrImport ast "tape" = false →
  removeRequireAndImport ast "tape" = (None, ast)
  ∧ tapeToJest parse toSource detectQuoteStyle source = Done source [].
Proof.
  intros Hparse Habsent. split.
  - by apply removeRequireAndImport_absent.
  - by apply tapeToJest_absent with ast.
Qed.

Lemma no_import_returns_source_witness :
  removeRequireAndImport file_without_tape "tape" = (None, file_without_tape)
  ∧ tapeToJest (parse_only file_without_tape) print_blank no_quote_style "input"
    = Done "input" [].
Proof.
  apply (no_import_returns_source (parse_only file_without_tape) print_blank
           no_quote_style "input" file_without_tape).
  - reflexivity.
  - vm_compute. reflexivity.
Defined.




(** ** The fuel of the walk is enough

    The callback never makes a node taller, so a walk that starts with
    the height of the tree as fuel reaches every node: more fuel gives
    the same run. *)

Lemma height_pos n : (1 ≤ height n)%nat.
Proof. destruct n; cbn [height]; lia. Qed.

Lemma height_children n c : c ∈ children n → (height c < height n)%nat.
Proof.
  assert (∀ l : list node, c ∈ l → (height c ≤ max_list (height <$> l))%nat) as Hl.
  { intros l Hin. by apply max_list_elem_of_le, list_elem_of_fmap_2. }
  destruct n; cbn [children height]; intros Hin;
    try (apply Hl in Hin; lia);
    repeat (apply elem_of_cons in Hin as [->|Hin]; [lia|]);
    try (by apply elem_of_nil in Hin).
  apply Hl in Hin. lia.
Qed.

Lemma traverse_ext {A B} (f g : A → outcome B) l :
  (∀ x, x ∈ l → f x = g x) → traverse f l = traverse g l.
Proof.
  induction l as [|x l IH]; intros H; [reflexivity|]. cbn [traverse].
  rewrite (H x) by apply list_elem_of_here.
  rewrite IH; [reflexivity|]. intros y Hy. by apply H, list_elem_of_further.
Qed.

Lemma traverse_children_ext (F G : node → outcome node) n :
  (∀ c, c ∈ children n → F c = G c) → traverse_children F n = traverse_children G n.
Proof.
  intros H. destruct n; cbn [traverse_children children] in *;
    rewrite ?(traverse_ext F G) by (intros; apply H; set_solver);
    repeat match goal with
           | |- context [F ?a] => rewrite (H a) by set_solver
           end;
    reflexivity.
Qed.

Lemma prune_slot_height f x x' k w :
  (∀ r k w, f x = Done (r, k) w → (height (default Absent r) ≤ height x)%nat) →
  prune_slot f x = Done (x', k) w → (height x' ≤ height x)%nat.
Proof.
  intros Hf H. unfold prune_slot in H.
  apply outcome_bind_Done in H as ([r k'] & ? & ? & Hx & [= <- _] & _). eauto.
Qed.

Lemma prune_list_height f l :
  (∀ x, x ∈ l → ∀ r k w, f x = Done (r, k) w →
     (height (default Absent r) ≤ height x)%nat) →
  ∀ l' k w, prune_list f l = Done (l', k) w →
    (max_list (height <$> l') ≤ max_list (height <$> l))%nat.
Proof.
  induction l as [|x l IH]; intros Hf l' k w H; cbn [prune_list] in H.
  - by injection H as <- _ _.
  - apply outcome_bind_Done in H as ([r k1] & ? & ? & Hx & H & _).
    apply outcome_bind_Done in H as ([rs k2] & ? & ? & Hl & [= <- _] & _).
    apply IH in Hl; [|intros y Hy; by apply Hf, list_elem_of_further].
    apply Hf in Hx; [|apply list_elem_of_here].
    destruct r as [c|]; cbn in *; lia.
Qed.

(** Taking a pair apart in a run that finished. *)
Ltac invert_prune H :=
  repeat (apply outcome_bind_Done in H as ([? ?] & ? & ? & ? & H & _)).

Lemma prune_children_height f n n' k w :
  (∀ c, c ∈ children n → ∀ r k w, f c = Done (r, k) w →
     (height (default Absent r) ≤ height c)%nat) →
  prune_children f n = Done (n', k) w → (height n' ≤ height n)%nat.
Proof.
  intros Hf H.
  destruct n; cbn [prune_children children] in *; invert_prune H;
    injection H as <- _ _; cbn [height];
    repeat match goal with
    | Hs : prune_slot f ?x = Done _ _ |- _ =>
        apply prune_slot_height in Hs; [|apply Hf; set_solver]
    | Hl : prune_list f ?l = Done _ _ |- _ =>
        apply prune_list_height in Hl; [|intros; eapply Hf; [set_solver|eassumption]]
    end;
    lia.
Qed.

Lemma pruneEnd_visit_height n :
  ∀ anc r k w, pruneEnd_visit anc n = Done (r, k) w →
    (height (default Absent r) ≤ height n)%nat.
Proof.
  induction n as [n IH] using node_children_ind. intros anc r k w H.
  assert (∀ c, c ∈ children n → ∀ r k w,
            pruneEnd_visit (n :: anc) c = Done (r, k) w →
            (height (default Absent r) ≤ height c)%nat) as Hch.
  { intros c Hc. rewrite Forall_forall in IH. apply (IH c Hc). }
  pose proof (height_pos n) as Hpos.
  rewrite pruneEnd_visit_unfold in H. destruct (is_t_member "end" n).
  - apply outcome_bind_Done in H as (inScope & ? & ? & _ & H & _).
    apply outcome_bind_Done in H as ([n' kept] & ? & ? & Hn & H & _).
    destruct inScope; injection H as <- _ _; [exact Hpos|].
    by eapply prune_children_height.
  - destruct n;
      try (apply outcome_bind_Done in H as ([n' kept] & ? & ? & Hn & [= <- _ _] & _);
           by eapply prune_children_height).
    apply outcome_bind_Done in H as ([e' kept] & ? & ? & He & [= <- _ _] & _).
    apply Hch in He; [|set_solver]. destruct e'; cbn in *; lia.
Qed.

Lemma pruneEnds_height anc p p1 kept w :
  pruneEnds anc p = Done (p1, kept) w → (height p1 ≤ height p)%nat.
Proof.
  unfold pruneEnds. apply prune_children_height.
  intros c _ r k w'. apply pruneEnd_visit_height.
Qed.

Lemma height_set_callee_name x p : height (set_callee_name x p) = height p.
Proof.
  destruct p as [| | | | | | | | | |c args| | | | | | |]; try reflexivity.
  destruct c; reflexivity.
Qed.

Lemma max_list_height_filter (P : node → Prop) `{∀ x, Decision (P x)} l :
  (max_list (height <$> filter P l) ≤ max_list (height <$> l))%nat.
Proof.
  induction l as [|x l IH]; [done|].
  destruct (decide (P x)).
  - rewrite filter_cons_True by assumption. cbn. lia.
  - rewrite filter_cons_False by assumption. cbn. lia.
Qed.

Lemma convertTapeOption_height p o p' w :
  convertTapeOption p o = Done p' w → height p' = height p.
Proof.
  unfold convertTapeOption. destruct o; try discriminate. intros H.
  apply outcome_bind_Done in H as (? & ? & ? & _ & [= <- _] & _).
  destruct (_ && _); [apply height_set_callee_name|reflexivity].
Qed.

Lemma convertTapeArgument_height h p a p' w :
  convertTapeArgument p a = Done p' w →
  (height p ≤ h)%nat → (height p' ≤ h)%nat.
Proof.
  unfold convertTapeArgument. destruct (is_ObjectExpression a).
  - intros H Hp. apply outcome_bind_Done in H as (p1 & ? & ? & H1 & [= <- _] & _).
    assert (height p1 ≤ h)%nat as Hp1.
    { eapply (foldM_invariant (λ q, height q ≤ h)%nat); [|exact H1|exact Hp].
      intros q o q' w' Hq. by rewrite (convertTapeOption_height _ _ _ _ Hq). }
    destruct p1 as [| | | | | | | | | |c args| | | | | | |]; try exact Hp1.
    cbn [set_arguments arguments_of height] in *.
    pose proof (max_list_height_filter (λ pa, is_ObjectExpression pa = false) args).
    lia.
  - by intros [= <- _].
Qed.

Lemma convertTapeOptions_height p p' w :
  convertTapeOptions p = Done p' w → (height p' ≤ height p)%nat.
Proof.
  unfold convertTapeOptions. intros H.
  eapply (foldM_invariant (λ q, height q ≤ height p)%nat); [|exact H|done].
  intros q a q' w'. apply convertTapeArgument_height.
Qed.

Lemma height_renameCallee p : height (renameCallee p) = height p.
Proof. unfold renameCallee. case_bool_decide; [apply height_set_callee_name|done]. Qed.

Lemma max_list_height_insert (args : list node) i old new :
  args !! i = Some old → height new = height old →
  max_list (height <$> <[i := new]> args) = max_list (height <$> args).
Proof.
  intros Hi Hh. rewrite list_fmap_insert, Hh.
  rewrite list_insert_id; [reflexivity|]. by rewrite list_lookup_fmap, Hi.
Qed.

Lemma removeTParameter_height p p' w :
  removeTParameter p = Done p' w → height p' = height p.
Proof.
  intros (_ & lastArg & Hlast & ->)%removeTParameter_Done.
  rewrite last_lookup in Hlast.
  destruct p as [| | | | | | | | | |c args| | | | | | |];
    try (cbn in Hlast; discriminate).
  cbn [arguments_of set_arguments] in *.
  destruct lastArg; try reflexivity;
    cbn [height]; by erewrite max_list_height_insert.
Qed.

(** The callback does not make the call taller. *)
Lemma rewriteTestCallExpression_callback_height anc p p' w :
  rewriteTestCallExpression_callback anc p = Done p' w → (height p' ≤ height p)%nat.
Proof.
  unfold rewriteTestCallExpression_callback. intros H.
  apply outcome_bind_Done in H as ([p1 kept] & ? & ? & Hprune & H & _).
  apply outcome_bind_Done in H as (? & ? & ? & _ & H & _).
  apply outcome_bind_Done in H as (p2 & ? & ? & Hopt & H & _).
  apply pruneEnds_height in Hprune. apply convertTapeOptions_height in Hopt.
  apply removeTParameter_height in H. rewrite height_renameCallee in H. lia.
Qed.

Lemma outcome_bind_ext {A B} (m : outcome A) (f g : A → outcome B) :
  (∀ a w, m = Done a w → f a = g a) → m ≫= f = m ≫= g.
Proof.
  intros H. destruct m as [a w|e w]; [|reflexivity].
  unfold mbind, outcome_mbind, outcome_bind. by rewrite (H a w).
Qed.

Lemma rewriteTestCallExpression_tree_fuel fuel :
  ∀ name anc n, (height n ≤ fuel)%nat →
    rewriteTestCallExpression_tree (S fuel) name anc n
    = rewriteTestCallExpression_tree fuel name anc n.
Proof.
  induction fuel as [|fuel IH]; intros name anc n Hn.
  - pose proof (height_pos n). lia.
  - change (rewriteTestCallExpression_tree (S (S fuel)) name anc n)
      with (n' ← rewriteTestCallExpression_at name anc n;
            traverse_children
              (rewriteTestCallExpression_tree (S fuel) name (n' :: anc)) n').
    change (rewriteTestCallExpression_tree (S fuel) name anc n)
      with (n' ← rewriteTestCallExpression_at name anc n;
            traverse_children
              (rewriteTestCallExpression_tree fuel name (n' :: anc)) n').
    apply outcome_bind_ext. intros n' w Hat.
    assert (height n' ≤ height n)%nat as Hn'.
    { unfold rewriteTestCallExpression_at in Hat.
      destruct (is_test_call name n).
      - by apply rewriteTestCallExpression_callback_height in Hat.
      - by injection Hat as <- _. }
    apply traverse_children_ext. intros c Hc. apply IH.
    apply height_children in Hc. lia.
Qed.

(** More fuel than the height of the tree changes nothing. *)
Lemma rewriteTestCallExpression_tree_height name anc ast extra :
  rewriteTestCallExpression_tree (height ast + extra) name anc ast
  = rewriteTestCallExpression_tree (height ast) name anc ast.
Proof.
  induction extra as [|extra IH].
  - by rewrite Nat.add_0_r.
  - rewrite Nat.add_succ_r, rewriteTestCallExpression_tree_fuel by lia. exact IH.
Qed.

(** * Further properties of the passes *)

(** ** The rule tables and the filters *)

Lemma tapeToJestExpect_key x :
  is_Some (tapeToJestExpect !! x) → x ∈ tapeToJestExpect_entries.*1.
Proof.
  intros [v Hv]. apply (elem_of_list_to_map_2 (M := gmap string)) in Hv.
  by apply (list_elem_of_fmap_2 fst) in Hv.
Qed.

Lemma unsupportedTProperties_member x :
  x ∈ unsupportedTProperties →
  x ∈ [ "timeoutAfter"; "deepLooseEqual"; "looseEqual"; "looseEquals";
        "notDeepLooseEqual"; "notLooseEqual"; "notLooseEquals";
        "fail"; "pass"; "error"; "ifErr"; "iferror"; "skip" ].
Proof. unfold unsupportedTProperties. by rewrite elem_of_list_to_set. Qed.

(** Going through the elements of a list written out in full. *)
Ltac each_member H :=
  repeat (apply elem_of_cons in H as [->|H]; [compute_done|]);
  by apply elem_of_nil in H.

Lemma mapped_not_unsupported x :
  is_Some (tapeToJestExpect !! x) →
  (x ∉ unsupportedTProperties) ∧ x ≠ "comment" ∧ x ≠ "end".
Proof.
  intros H%tapeToJestExpect_key. unfold tapeToJestExpect_entries in H.
  cbn [fmap list_fmap fst] in H. each_member H.
Qed.

Lemma unsupported_not_handled x :
  x ∈ unsupportedTProperties → x ≠ "comment" ∧ x ≠ "end".
Proof. intros H%unsupportedTProperties_member. each_member H. Qed.

(** X1: the four passes that look at calls on [t] look at disjoint sets
    of calls: a call the assertion rewriter matches is not flagged as
    unsupported and is neither a comment call nor an end call, and so
    on. *)
Theorem t_passes_disjoint (n : node) :
  (is_tape_assertion n = true →
     is_member_in "t" unsupportedTProperties n = false
     ∧ is_t_member "comment" n = false ∧ is_t_member "end" n = false)
  ∧ (is_member_in "t" unsupportedTProperties n = true →
     is_t_member "comment" n = false ∧ is_t_member "end" n = false)
  ∧ (is_t_member "comment" n = true → is_t_member "end" n = false).
Proof.
  destruct n as [| | | | | | | | | |c args| | | | | | |]; try (repeat split; done).
  destruct c as [| | | | | | | | | | |o p b| | | | | |]; try (repeat split; done).
  cbn [is_tape_assertion is_member_in is_t_member].
  destruct (bool_decide (name_of o = Some "t")); [|repeat split; done].
  cbn [andb]. destruct (name_of p) as [x|]; [|repeat split; done].
  split; [|split].
  - intros (Hu & Hc & He)%bool_decide_eq_true%mapped_not_unsupported.
    rewrite !bool_decide_eq_false. repeat split; congruence.
  - intros (Hc & He)%bool_decide_eq_true%unsupported_not_handled.
    rewrite !bool_decide_eq_false. split; congruence.
  - intros [= ->]%bool_decide_eq_true. reflexivity.
Qed.

Lemma t_passes_disjoint_witness :
  is_member_in "t" unsupportedTProperties (t_call "deepEqual" [Identifier "a"]) = false
  ∧ is_t_member "comment" (t_call "deepEqual" [Identifier "a"]) = false
  ∧ is_t_member "end" (t_call "deepEqual" [Identifier "a"]) = false.
Proof.
  apply (t_passes_disjoint (t_call "deepEqual" [Identifier "a"])).
  vm_compute. reflexivity.
Defined.



(** ** The assertion rewriter, for every call *)

Lemma j_callExpression_Done callee args r w :
  j_callExpression callee args = Done r w →
  w = [] ∧ ∃ args', defined_all args = Some args' ∧ r = CallExpression callee args'.
Proof.
  unfold j_callExpression. destruct (defined_all args) as [args'|]; [|discriminate].
  intros [= <- <-]. eauto.
Qed.

Lemma j_callExpression_one callee (x : option node) r w :
  j_callExpression callee [x] = Done r w →
  w = [] ∧ ∃ b, x = Some b ∧ r = CallExpression callee [b].
Proof.
  intros (-> & args' & Hd & ->)%j_callExpression_Done. split; [done|].
  destruct x as [b|]; [|discriminate]. injection Hd as <-. eauto.
Qed.

Lemma j_identifier_Done name r w :
  j_identifier name = Done r w → w = [] ∧ ∃ x, name = Some x ∧ r = Identifier x.
Proof. destruct name; [|discriminate]. intros [= <- <-]. eauto. Qed.

Lemma targets_are_matchers old new :
  tapeToJestExpect !! old = Some new → new ≠ SPECIAL_THROWS_CASE → new ∈ jest_matchers.
Proof.
  intros Hk Hnew. destruct (tapeToJestExpect_targets _ _ Hk) as [?|[H|H]]; [done|..];
    [unfold truthiness_targets in H|unfold PROP_WITH_SECONDS_ARGS in H];
    each_member H.
Qed.

(** X3: whenever the callback of the assertion rewriter finishes, it has
    logged nothing and the replacement is [expect(a).matcher(...)] with [a]
    the first argument of the call, a matcher out of nine, and either no
    matcher argument or the second argument of the call. *)
Theorem assertion_replacement_shape (p n' : node) (w : list warning) :
  updateAssertions_callback p = Done n' w →
  w = []
  ∧ ∃ a matcher margs,
      head (arguments_of p) = Some a
      ∧ n' = expect_that a matcher margs
      ∧ matcher ∈ jest_matchers
      ∧ (margs = [] ∨ ∃ b, arguments_of p !! 1%nat = Some b ∧ margs = [b]).
Proof.
  unfold updateAssertions_callback.
  destruct p as [| | | | | | | | | |c args| | | | | | |]; try discriminate.
  destruct c as [| | | | | | | | | | |o prop comp| | | | | |]; try discriminate.
  cbn [arguments_of]. intros H.
  apply outcome_bind_Done in H as (cond & w1 & w2 & Hcond & H & ->).
  apply outcome_bind_Done in H as (e & w3 & w4 & He & [= <- <-] & ->).
  apply outcome_bind_Done in He as (ce & w5 & w6 & [= <- <-] & He & ->).
  apply j_callExpression_one in He as (-> & a & Ha & ->).
  assert (w1 = [] ∧ ∃ matcher margs,
            cond = CallExpression (Identifier matcher) margs
            ∧ matcher ∈ jest_matchers
            ∧ (margs = [] ∨ ∃ b, args !! 1%nat = Some b ∧ margs = [b]))
    as (-> & matcher & margs & -> & Hm & Hargs).
  { destruct (bool_decide _) eqn:Hspecial in Hcond.
    - destruct (_ || _) in Hcond.
      + apply outcome_bind_Done in Hcond as (cc & ? & ? & [= <- <-] & [= <- <-] & ->).
        split; [done|]. eexists _, []. split; [done|]. split; [|by left].
        destruct (bool_decide (name_of prop = Some "throws")); compute_done.
      + apply outcome_bind_Done in Hcond as (cc & ? & ? & [= <- <-] & Hc & ->).
        apply j_callExpression_one in Hc as (-> & b & Hb & ->).
        split; [done|]. eexists _, [b]. split; [done|].
        split; [compute_done|]. right. eauto.
    - apply bool_decide_eq_false in Hspecial.
      apply outcome_bind_Done in Hcond as (cc & ? & ? & Hid & Hc & ->).
      apply j_identifier_Done in Hid as (-> & new & Hnew & ->).
      destruct (name_of prop) as [old|]; [|discriminate].
      cbn [mbind option_bind] in Hnew, Hspecial, Hc.
      assert (new ∈ jest_matchers) as Hin
        by (eapply targets_are_matchers; [exact Hnew|congruence]).
      rewrite Hnew in Hc. destruct (bool_decide (new ∈ PROP_WITH_SECONDS_ARGS)).
      + apply j_callExpression_one in Hc as (-> & b & Hb & ->).
        split; [done|]. eexists _, [b]. split; [done|]. split; [done|]. right. eauto.
      + injection Hc as <- <-. split; [done|]. eexists _, []. by repeat split; [|left]. }
  split; [done|]. exists a, matcher, margs.
  split; [by rewrite head_lookup|]. done.
Qed.

Lemma assertion_replacement_shape_witness :
  ∃ a matcher margs,
    head [Identifier "x"; Identifier "y"] = Some a
    ∧ expect_that (Identifier "x") "toEqual" [Identifier "y"] = expect_that a matcher margs
    ∧ matcher ∈ jest_matchers
    ∧ (margs = [] ∨ ∃ b, [Identifier "x"; Identifier "y"] !! 1%nat = Some b ∧ margs = [b]).
Proof.
  apply (assertion_replacement_shape (t_call "same" [Identifier "x"; Identifier "y"])
           (expect_that (Identifier "x") "toEqual" [Identifier "y"]) []).
  vm_compute. reflexivity.
Defined.





(** ** Passes that log nothing, passes that change nothing *)

Lemma log_of_bind_nil {A B} (m : outcome A) (f : A → outcome B) :
  log_of m = [] → (∀ a, log_of (f a) = []) → log_of (m ≫= f) = [].
Proof.
  intros Hm Hf. destruct m as [a w|e w]; cbn in *; subst; [|reflexivity].
  specialize (Hf a). unfold mbind, outcome_mbind, outcome_bind.
  destruct (f a); cbn in *; by subst.
Qed.

Lemma log_of_traverse_nil {A B} (f : A → outcome B) l :
  (∀ x, x ∈ l → log_of (f x) = []) → log_of (traverse f l) = [].
Proof.
  induction l as [|x l IH]; intros H; [reflexivity|]. cbn [traverse].
  apply log_of_bind_nil; [apply H, list_elem_of_here|]. intros y.
  apply log_of_bind_nil; [|done]. apply IH. intros z Hz.
  by apply H, list_elem_of_further.
Qed.

Lemma log_of_traverse_children_nil (F : node → outcome node) n :
  (∀ c, c ∈ children n → log_of (F c) = []) → log_of (traverse_children F n) = [].
Proof.
  intros H. destruct n; cbn [traverse_children children] in *;
    repeat first
      [ reflexivity
      | apply log_of_traverse_nil; intros; apply H; set_solver
      | apply H; set_solver
      | apply log_of_bind_nil; [|intros ?] ].
Qed.

Lemma log_of_j_callExpression callee args : log_of (j_callExpression callee args) = [].
Proof. unfold j_callExpression. by destruct (defined_all args). Qed.

Lemma log_of_j_identifier name : log_of (j_identifier name) = [].
Proof. by destruct name. Qed.

Lemma log_of_updateAssertions_callback p : log_of (updateAssertions_callback p) = [].
Proof.
  unfold updateAssertions_callback.
  destruct p as [| | | | | | | | | |c args| | | | | | |]; try reflexivity.
  destruct c; try reflexivity.
  repeat first
    [ reflexivity
    | apply log_of_j_callExpression
    | apply log_of_j_identifier
    | apply log_of_bind_nil; [|intros ?]
    | match goal with |- context [if ?b then _ else _] => destruct b end ].
Qed.

(** ** The assertion rewriter on a matched call

    The pass selects a call by its filter, walks on into the arguments,
    and puts what the callback makes of the call in its place. *)

Lemma log_of_updateAssertions_visit n :
  ∀ detached, log_of (updateAssertions_visit detached n) = [].
Proof.
  induction n as [n IH] using node_children_ind. intros detached.
  rewrite Forall_forall in IH.
  assert (∀ d, log_of (traverse_children (updateAssertions_visit d) n) = []) as Hwalk.
  { intros d. apply log_of_traverse_children_nil. intros c Hc. by apply IH. }
  destruct n as [| | | | | | | | | |c args| | | | | | |];
    try exact (Hwalk false).
  cbn [updateAssertions_visit].
  destruct (is_tape_assertion (CallExpression c args)); [|exact (Hwalk false)].
  apply log_of_bind_nil; [apply log_of_updateAssertions_callback|]. intros _.
  apply log_of_bind_nil.
  - apply log_of_traverse_nil. intros x Hx. apply IH. cbn [children]. set_solver.
  - intros args'. destruct detached; [reflexivity|].
    apply log_of_updateAssertions_callback.
Qed.

(** The walk neither makes nor unmakes a string literal. *)
Lemma updateAssertions_visit_string_literal detached n n' w :
  updateAssertions_visit detached n = Done n' w →
  is_string_literal n' = is_string_literal n.
Proof.
  intros H.
  destruct n' as [| | | | | | | | |v| | | | | | | |].
  10: { apply (walker_Literal _ updateAssertions_walker) in H as ->;
          [reflexivity|by exists detached]. }
  all: destruct n as [| | | | | | | | |v| | | | | | | |]; try reflexivity.
  all: cbn in H; discriminate.
Qed.

(** A matched call that is a statement: the callback first sees the call
    as it stands, the walk then rewrites the arguments, and the statement
    gets what the callback makes of the call with its arguments
    rewritten. *)
Lemma updateAssertions_statement member args r0 :
  is_tape_assertion (t_call member args) = true →
  updateAssertions_callback (t_call member args) = Done r0 [] →
  updateAssertions (ExpressionStatement (t_call member args))
  = args' ← traverse (updateAssertions_visit true) args;
    r ← updateAssertions_callback (t_call member args');
    mret (ExpressionStatement r).
Proof.
  intros Hsel H0. unfold updateAssertions, t_call in *.
  cbn [updateAssertions_visit traverse_children negb].
  rewrite Hsel, H0. cbn [mbind outcome_mbind outcome_bind app].
  destruct (traverse _ args) as [args' w|e w]; [|reflexivity].
  cbn [mbind outcome_mbind outcome_bind app].
  destruct (updateAssertions_callback (CallExpression _ args')) as [r w'|e w'];
    cbn [mbind outcome_mbind outcome_bind mret outcome_ret app];
    rewrite ?app_nil_r; reflexivity.
Qed.

Lemma is_tape_assertion_t_call member args :
  is_Some (tapeToJestExpect !! member) → is_tape_assertion (t_call member args) = true.
Proof.
  intros H. unfold is_tape_assertion, t_call. cbn [name_of].
  by rewrite !bool_decide_eq_true_2.
Qed.

Lemma traverse_Done_length {A B} (f : A → outcome B) l l' w :
  traverse f l = Done l' w → length l' = length l.
Proof.
  revert l' w. induction l as [|x l IH]; intros l' w H; cbn [traverse] in H.
  - by injection H as <- _.
  - apply outcome_bind_Done in H as (y & ? & ? & _ & H & _).
    apply outcome_bind_Done in H as (ys & ? & ? & Hys & H & _).
    injection H as <- _. cbn. f_equal. by eapply IH.
Qed.

(** The callback on the shapes of the throws family. *)
Lemma throws_callback_cases member (fn m : node) (rest : list node) :
  tapeToJestExpect !! member = Some SPECIAL_THROWS_CASE →
  let bare := if bool_decide (Some member = Some "throws") then "toThrow" else "not.toThrow" in
  updateAssertions_callback (t_call member [fn]) = Done (expect_that fn bare []) []
  ∧ (is_string_literal m = true →
     updateAssertions_callback (t_call member [fn; m]) = Done (expect_that fn bare []) [])
  ∧ (is_string_literal m = false →
     updateAssertions_callback (t_call member (fn :: m :: rest))
       = Done (expect_that fn "toThrowError" [m]) [])
  ∧ (rest ≠ [] →
     updateAssertions_callback (t_call member (fn :: m :: rest))
       = Done (expect_that fn "toThrowError" [m]) []).
Proof.
  intros Hk bare. rewrite !(throws_callback_unfold member) by exact Hk.
  repeat split.
  - intros Hm. cbn. rewrite Hm. reflexivity.
  - intros Hm. destruct rest; cbn; rewrite ?Hm; reflexivity.
  - intros Hrest. destruct rest; [done|]. reflexivity.
Qed.

(** A throws-family call that is a statement, by the number of arguments
    and the kind of the second.  The arguments are walked from left to
    right, all of them, before the call is replaced. *)
Ltac outcome_simpl :=
  cbn [mbind outcome_mbind outcome_bind mret outcome_ret app];
  rewrite ?app_nil_r, <-?app_assoc; try reflexivity.

Lemma throws_statement member (fn m : node) (rest : list node) :
  tapeToJestExpect !! member = Some SPECIAL_THROWS_CASE →
  let bare := if bool_decide (Some member = Some "throws") then "toThrow" else "not.toThrow" in
  updateAssertions (ExpressionStatement (t_call member [fn]))
  = (fn' ← updateAssertions_visit true fn;
     mret (ExpressionStatement (expect_that fn' bare [])))
  ∧ (is_string_literal m = true →
     updateAssertions (ExpressionStatement (t_call member [fn; m]))
     = (fn' ← updateAssertions_visit true fn;
        mret (ExpressionStatement (expect_that fn' bare []))))
  ∧ (is_string_literal m = false ∨ rest ≠ [] →
     updateAssertions (ExpressionStatement (t_call member (fn :: m :: rest)))
     = (fn' ← updateAssertions_visit true fn;
        m' ← updateAssertions_visit true m;
        _ ← traverse (updateAssertions_visit true) rest;
        mret (ExpressionStatement (expect_that fn' "toThrowError" [m'])))).
Proof.
  intros Hk bare.
  assert (∀ args, is_tape_assertion (t_call member args) = true) as Hsel.
  { intros args. apply is_tape_assertion_t_call. rewrite Hk. by eexists. }
  destruct (throws_callback_cases member fn m rest Hk) as (A1 & A2 & A3 & A4).
  split; [|split].
  - rewrite (updateAssertions_statement _ _ _ (Hsel _) A1). cbn [traverse].
    destruct (updateAssertions_visit true fn) as [fn' w1|e w1]; [|reflexivity].
    cbn [mbind outcome_mbind outcome_bind mret outcome_ret].
    destruct (throws_callback_cases member fn' m rest Hk) as (-> & _).
    outcome_simpl.
  - intros Hm. rewrite (updateAssertions_statement _ _ _ (Hsel _) (A2 Hm)).
    cbn [traverse].
    destruct (updateAssertions_visit true fn) as [fn' w1|e w1]; [|reflexivity].
    destruct m as [| | | | | | | | |v| | | | | | | |]; try discriminate.
    destruct v; try discriminate.
    cbn [mbind outcome_mbind outcome_bind mret outcome_ret updateAssertions_visit
         traverse_children].
    destruct (throws_callback_cases member fn' (Literal (LString s)) rest Hk)
      as (_ & B2 & _).
    rewrite B2 by reflexivity. outcome_simpl.
  - intros Hm.
    assert (updateAssertions_callback (t_call member (fn :: m :: rest))
            = Done (expect_that fn "toThrowError" [m]) []) as A
      by (destruct Hm; [by apply A3|by apply A4]).
    rewrite (updateAssertions_statement _ _ _ (Hsel _) A). cbn [traverse].
    destruct (updateAssertions_visit true fn) as [fn' w1|e w1]; [|reflexivity].
    destruct (updateAssertions_visit true m) as [m' w2|e w2] eqn:Hvisit; [|reflexivity].
    destruct (traverse _ rest) as [rest' w3|e w3] eqn:Hrest; [|reflexivity].
    cbn [mbind outcome_mbind outcome_bind mret outcome_ret].
    destruct (throws_callback_cases member fn' m' rest' Hk) as (_ & _ & B3 & B4).
    rewrite (updateAssertions_visit_string_literal _ _ _ _ Hvisit) in B3.
    assert (rest' ≠ [] ↔ rest ≠ []) as Hlen.
    { apply traverse_Done_length in Hrest. destruct rest, rest'; done. }
    rewrite Hlen in B4.
    assert (updateAssertions_callback (t_call member (fn' :: m' :: rest'))
            = Done (expect_that fn' "toThrowError" [m']) []) as ->
      by (destruct Hm; [by apply B3|by apply B4]).
    outcome_simpl.
Qed.









(** X6: the assertion rewriter never logs a warning, whether it finishes
    or throws, on any tree. *)
Theorem updateAssertions_silent (ast : node) : log_of (updateAssertions ast) = [].
Proof.
  unfold updateAssertions. generalize false.
  induction ast as [n IH] using node_children_ind. intros detached.
  rewrite Forall_forall in IH.
  assert (∀ d, log_of (traverse_children (updateAssertions_visit d) n) = []) as Hwalk.
  { intros d. apply log_of_traverse_children_nil. intros c Hc. by apply IH. }
  destruct n as [| | | | | | | | | |c args| | | | | | |];
    try exact (Hwalk false).
  cbn [updateAssertions_visit].
  destruct (is_tape_assertion (CallExpression c args)); [|exact (Hwalk false)].
  apply log_of_bind_nil; [apply log_of_updateAssertions_callback|]. intros _.
  apply log_of_bind_nil.
  - apply log_of_traverse_nil. intros x Hx. apply IH. cbn [children]. set_solver.
  - intros args'. destruct detached; [reflexivity|].
    apply log_of_updateAssertions_callback.
Qed.

Lemma traverse_id {A} (f : A → outcome A) l :
  (∀ x, x ∈ l → f x = Done x []) → traverse f l = Done l [].
Proof.
  induction l as [|x l IH]; intros H; [reflexivity|]. cbn [traverse].
  rewrite (H x) by apply list_elem_of_here.
  rewrite IH by (intros y Hy; by apply H, list_elem_of_further). reflexivity.
Qed.

Lemma traverse_children_id (F : node → outcome node) n :
  (∀ c, c ∈ children n → F c = Done c []) → traverse_children F n = Done n [].
Proof.
  intros H. destruct n; cbn [traverse_children children] in *;
    rewrite ?(traverse_id F) by (intros; apply H; set_solver);
    repeat match goal with
           | |- context [F ?a] => rewrite (H a) by set_solver
           end;
    reflexivity.
Qed.

Lemma updateAssertions_id (ast : node) :
  (∀ x, x ∈ subnodes ast → is_tape_assertion x = false) →
  updateAssertions ast = Done ast [].
Proof.
  intros Hno. unfold updateAssertions.
  enough (∀ detached, updateAssertions_visit detached ast = Done ast []) by done.
  revert Hno. induction ast as [n IH] using node_children_ind. intros Hno detached.
  rewrite Forall_forall in IH.
  assert (traverse_children (updateAssertions_visit false) n = Done n []) as Hwalk.
  { apply traverse_children_id. intros c Hc. apply IH; [done|].
    intros x Hx. eapply Hno, subnodes_child; eassumption. }
  destruct n as [| | | | | | | | | |c args| | | | | | |]; try exact Hwalk.
  cbn [updateAssertions_visit]. by rewrite (Hno _ (subnodes_self _)).
Qed.

(** X7: a tree without a call the assertion rewriter matches comes out
    of it exactly as it went in. *)
Theorem updateAssertions_frame (ast : node) :
  (∀ x, x ∈ subnodes ast → is_tape_assertion x = false) →
  updateAssertions ast = Done ast [].
Proof. apply updateAssertions_id. Qed.

Lemma updateAssertions_frame_witness :
  updateAssertions (File (Program [ExpressionStatement (t_call "plan" [Literal (LNumber 2)])]))
    = Done (File (Program [ExpressionStatement (t_call "plan" [Literal (LNumber 2)])])) [].
Proof.
  apply (updateAssertions_frame
           (File (Program [ExpressionStatement (t_call "plan" [Literal (LNumber 2)])]))).
  intros x Hx. cbn in Hx.
  repeat (apply elem_of_cons in Hx as [->|Hx]; [vm_compute; reflexivity|]).
  by apply elem_of_nil in Hx.
Defined.

(** ** The comment rewriter, for every tree *)

Lemma traverse_total {A B} (f : A → outcome B) l :
  (∀ x, x ∈ l → ∃ y, f x = Done y []) →
  ∃ l', traverse f l = Done l' []
        ∧ ∀ y, y ∈ l' → ∃ x, x ∈ l ∧ f x = Done y [].
Proof.
  induction l as [|x l IH]; intros H.
  - exists []. split; [reflexivity|]. intros y Hy. by apply elem_of_nil in Hy.
  - destruct (H x) as [y Hy]; [apply list_elem_of_here|].
    destruct IH as (l' & Hl' & Hin); [intros z Hz; by apply H, list_elem_of_further|].
    exists (y :: l'). split; [cbn [traverse]; by rewrite Hy, Hl'|].
    intros z [->|Hz]%elem_of_cons.
    + exists x. split; [apply list_elem_of_here|done].
    + destruct (Hin z Hz) as (x' & Hx' & Hfx').
      exists x'. split; [by apply list_elem_of_further|done].
Qed.

Lemma traverse_children_total (F : node → outcome node) n :
  (∀ c, c ∈ children n → ∃ c', F c = Done c' []) →
  ∃ n', traverse_children F n = Done n' []
        ∧ ∀ c', c' ∈ children n' → ∃ c, c ∈ children n ∧ F c = Done c' [].
Proof.
  intros H.
  destruct n; cbn [traverse_children children] in *;
    try (eexists; split; [reflexivity|]; intros c' Hc'; by apply elem_of_nil in Hc');
    try (destruct (traverse_total F _ H) as (l' & -> & Hin);
         eexists; split; [reflexivity|]; exact Hin);
    repeat match goal with
    | |- context [F ?a] =>
        let c' := fresh "c'" in let Hc := fresh "Hc" in
        destruct (H a) as [c' Hc]; [set_solver|]; rewrite Hc
    end;
    try (eexists; split; [reflexivity|]; cbn [children]; intros ? Hc';
         repeat (apply elem_of_cons in Hc' as [->|Hc']; [eexists; split; [|eassumption]; set_solver|]);
         by apply elem_of_nil in Hc').
  (* a call: the callee, then the arguments *)
  destruct (traverse_total F arguments) as (l' & Hl' & Hin);
    [intros; apply H; set_solver|].
  rewrite Hl'. eexists. split; [reflexivity|]. cbn [children].
  intros ? [->|Hc']%elem_of_cons.
  - eexists. split; [|eassumption]. set_solver.
  - destruct (Hin _ Hc') as (x & Hx & Hfx). exists x. split; [set_solver|done].
Qed.

Lemma updateTapeComments_visit_unfold n :
  updateTapeComments_visit n =
    if is_t_member "comment" n then
      args' ← traverse updateTapeComments_visit (arguments_of n);
      mret (CallExpression (Raw "console.log") args')
    else traverse_children updateTapeComments_visit n.
Proof.
  destruct n; reflexivity.
Qed.

(** The pass keeps apart what has a name and what has none, and keeps
    the names. *)
Lemma updateTapeComments_visit_name n n' w :
  updateTapeComments_visit n = Done n' w → name_of n' = name_of n.
Proof.
  rewrite updateTapeComments_visit_unfold. destruct (is_t_member "comment" n) eqn:Hm.
  - destruct n; try discriminate. intros H.
    by apply outcome_bind_Done in H as (? & ? & ? & _ & [= <- _] & _).
  - intros H. destruct n; invert_walk H; by injection H as <- _.
Qed.

Lemma updateTapeComments_visit_member n o' p' b w :
  updateTapeComments_visit n = Done (MemberExpression o' p' b) w →
  ∃ o p, n = MemberExpression o p b
         ∧ name_of o' = name_of o ∧ name_of p' = name_of p.
Proof.
  rewrite updateTapeComments_visit_unfold. destruct (is_t_member "comment" n) eqn:Hm.
  - intros H. by apply outcome_bind_Done in H as (? & ? & ? & _ & [= ] & _).
  - intros H. destruct n; invert_walk H. injection H; intros; subst.
    eexists _, _. split; [reflexivity|].
    split; eapply updateTapeComments_visit_name; eassumption.
Qed.

Lemma updateTapeComments_visit_not_member n n' w :
  updateTapeComments_visit n = Done n' w →
  (∀ o p b, n ≠ MemberExpression o p b) → ∀ o' p' b, n' ≠ MemberExpression o' p' b.
Proof.
  intros H Hn o' p' b ->.
  apply updateTapeComments_visit_member in H as (o & p & -> & _). by eapply Hn.
Qed.

(** A call the pass does not match is not matched afterwards either. *)
Lemma updateTapeComments_walk_is_t_member member n n' w :
  traverse_children updateTapeComments_visit n = Done n' w →
  is_t_member member n' = is_t_member member n.
Proof.
  intros H. destruct n; invert_walk H; injection H; intros; subst; try reflexivity.
  match goal with
  | Hc : updateTapeComments_visit ?c = Done ?c' _ |- _ =>
      rename Hc into Hcallee; rename c into callee; rename c' into callee'
  end.
  destruct callee as [| | | | | | | | | | |o p b| | | | | |];
    try (destruct callee' as [| | | | | | | | | | |o' p' b'| | | | | |];
         try reflexivity;
         by apply updateTapeComments_visit_member in Hcallee as (? & ? & [=] & _)).
  rewrite updateTapeComments_visit_unfold in Hcallee. cbn [is_t_member] in Hcallee.
  invert_walk Hcallee. injection Hcallee; intros; subst.
  cbn [is_t_member].
  repeat match goal with
         | Hv : updateTapeComments_visit _ = Done _ _ |- _ =>
             apply updateTapeComments_visit_name in Hv; rewrite Hv; clear Hv
         end.
  reflexivity.
Qed.

(** X8: the comment rewriter always finishes, logs nothing, and leaves
    no call of [t.comment] anywhere in the tree. *)
Theorem updateTapeComments_complete (ast : node) :
  ∃ ast', updateTapeComments ast = Done ast' []
          ∧ ∀ x, x ∈ subnodes ast' → is_t_member "comment" x = false.
Proof.
  unfold updateTapeComments.
  induction ast as [n IH] using node_children_ind. rewrite Forall_forall in IH.
  rewrite updateTapeComments_visit_unfold.
  destruct (is_t_member "comment" n) eqn:Hm.
  - destruct n as [| | | | | | | | | |c args| | | | | | |]; try discriminate.
    cbn [arguments_of children] in *.
    destruct (traverse_total updateTapeComments_visit args) as (args' & Hargs & Hin).
    { intros x Hx. destruct (IH x) as (x' & Hx' & _); [set_solver|eauto]. }
    rewrite Hargs. eexists. split; [reflexivity|].
    intros x. rewrite subnodes_unfold. cbn [children].
    intros [->|Hx]%elem_of_cons; [reflexivity|].
    apply list_elem_of_bind in Hx as (y & Hx & [->|Hy]%elem_of_cons).
    + cbn in Hx. by apply list_elem_of_singleton in Hx as ->.
    + destruct (Hin y Hy) as (a & Ha & Hrun).
      destruct (IH a) as (y' & Hy' & Hclean); [set_solver|].
      rewrite Hrun in Hy'. injection Hy' as <-. by apply Hclean.
  - destruct (traverse_children_total updateTapeComments_visit n)
      as (n' & Hn' & Hin).
    { intros c Hc. destruct (IH c Hc) as (c' & Hc' & _). eauto. }
    exists n'. split; [exact Hn'|].
    intros x. rewrite subnodes_unfold.
    intros [->|Hx]%elem_of_cons.
    + by rewrite (updateTapeComments_walk_is_t_member _ _ _ _ Hn').
    + apply list_elem_of_bind in Hx as (c' & Hx & Hc').
      destruct (Hin c' Hc') as (c & Hc & Hrun).
      destruct (IH c Hc) as (c'' & Hc'' & Hclean).
      rewrite Hrun in Hc''. injection Hc'' as <-. by apply Hclean.
Qed.

Lemma updateTapeComments_id (ast : node) :
  (∀ x, x ∈ subnodes ast → is_t_member "comment" x = false) →
  updateTapeComments ast = Done ast [].
Proof.
  unfold updateTapeComments.
  induction ast as [n IH] using node_children_ind. intros Hno.
  rewrite Forall_forall in IH.
  rewrite updateTapeComments_visit_unfold, (Hno _ (subnodes_self _)).
  apply traverse_children_id. intros c Hc. apply IH; [done|].
  intros x Hx. eapply Hno, subnodes_child; eassumption.
Qed.

(** X9: a tree without a call of [t.comment] comes out of the comment
    rewriter exactly as it went in. *)
Theorem updateTapeComments_frame (ast : node) :
  (∀ x, x ∈ subnodes ast → is_t_member "comment" x = false) →
  updateTapeComments ast = Done ast [].
Proof. apply updateTapeComments_id. Qed.

Lemma updateTapeComments_frame_witness :
  updateTapeComments (ExpressionStatement (t_call "ok" [Identifier "a"]))
    = Done (ExpressionStatement (t_call "ok" [Identifier "a"])) [].
Proof.
  apply (updateTapeComments_frame (ExpressionStatement (t_call "ok" [Identifier "a"]))).
  intros x Hx. cbn in Hx.
  repeat (apply elem_of_cons in Hx as [->|Hx]; [vm_compute; reflexivity|]).
  by apply elem_of_nil in Hx.
Defined.

(** ** A test call without arguments *)

Lemma traverse_children_Done (F : node → outcome node) n n' w :
  traverse_children F n = Done n' w → traverse F (children n) = Done (children n') w.
Proof.
  destruct n; cbn [traverse_children children traverse]; intros H;
    repeat (apply outcome_bind_Done in H as (? & ? & ? & ? & H & ->));
    injection H as <- <-; cbn [children];
    repeat match goal with
           | Hx : _ = Done _ _ |- _ => rewrite Hx; clear Hx
           end;
    cbn [mbind outcome_mbind outcome_bind mret outcome_ret];
    rewrite ?app_nil_r, <-?app_assoc; reflexivity.
Qed.

(** The comment rewriter keeps such a call wherever it is. *)
Lemma updateTapeComments_visit_keeps name n :
  ∀ n' w,
    updateTapeComments_visit n = Done n' w →
    CallExpression (Identifier name) [] ∈ subnodes n →
    CallExpression (Identifier name) [] ∈ subnodes n'.
Proof.
  induction n as [n IH] using node_children_ind. intros n' w H Hin.
  rewrite Forall_forall in IH.
  rewrite subnodes_unfold in Hin. apply elem_of_cons in Hin as [<-|Hin].
  { cbn in H. injection H as <- _. apply subnodes_self. }
  apply list_elem_of_bind in Hin as (c & Hz & Hc).
  rewrite updateTapeComments_visit_unfold in H.
  destruct (is_t_member "comment" n) eqn:Hm.
  - destruct n as [| | | | | | | | | |callee args| | | | | | |]; try discriminate.
    destruct callee as [| | | | | | | | | | |o p b| | | | | |]; try discriminate.
    cbn [is_t_member] in Hm.
    apply andb_prop in Hm as [Ho%bool_decide_eq_true Hp%bool_decide_eq_true].
    destruct o; try discriminate. destruct p; try discriminate.
    cbn [arguments_of] in H.
    apply outcome_bind_Done in H as (args' & ? & ? & Hargs & [= <- _] & _).
    cbn [children] in Hc. apply elem_of_cons in Hc as [->|Hc].
    + cbn in Hz. repeat (apply elem_of_cons in Hz as [Hz|Hz]; [discriminate|]).
      by apply elem_of_nil in Hz.
    + destruct (traverse_Done_elem _ _ _ _ _ Hargs Hc) as (c' & w' & Hc' & Hin').
      apply (subnodes_child _ c'); [cbn [children]; by apply list_elem_of_further|].
      eapply IH; [|exact Hc'|exact Hz]. cbn [children]. by apply list_elem_of_further.
  - apply traverse_children_Done in H.
    destruct (traverse_Done_elem _ _ _ _ _ H Hc) as (c' & w' & Hc' & Hin').
    apply (subnodes_child _ c'); [exact Hin'|]. by eapply IH.
Qed.

(** The assertion rewriter drops the surplus arguments of the calls it
    rewrites; when it leaves the call in the tree, the passes abort. *)
Lemma transforms_zero_arguments name ast :
  (∀ ast1 w1, updateAssertions ast = Done ast1 w1 →
     CallExpression (Identifier name) [] ∈ subnodes ast1) →
  aborts (transforms name ast).
Proof.
  intros Hkeep. unfold transforms.
  do 2 (apply aborts_bind_r; intros _ _ _).
  apply aborts_bind_r. intros ast1 w1 H1.
  apply aborts_bind_r. intros ast2 w2 H2.
  apply aborts_bind_l, rewriteTestCallExpression_zero_arguments.
  eapply updateTapeComments_visit_keeps; [exact H2|by eapply Hkeep].
Qed.

(** A statement of the program is out of the reach of both passes. *)
Lemma updateAssertions_zero_arguments name body ast1 w1 :
  call_stmt (Identifier name) [] ∈ body →
  updateAssertions (File (Program body)) = Done ast1 w1 →
  CallExpression (Identifier name) [] ∈ subnodes ast1.
Proof.
  intros Hin H1.
  apply updateAssertions_file in H1 as (body1 & -> & H1).
  destruct (traverse_Done_elem _ _ _ _ _ H1 Hin) as (s1 & ws1 & Hs1 & Hin1).
  change (updateAssertions_visit false (call_stmt (Identifier name) []))
    with (Done (call_stmt (Identifier name) []) []) in Hs1.
  injection Hs1 as <- _.
  apply (subnodes_child _ (Program body1)); [apply list_elem_of_here|].
  apply (subnodes_child _ (call_stmt (Identifier name) [])); [exact Hin1|].
  apply (subnodes_child _ (CallExpression (Identifier name) []));
    [apply list_elem_of_here|apply subnodes_self].
Qed.

(** C9: a call of the test function without arguments makes the callback
    read the type of an undefined last argument.  The path of every such
    call is collected, wherever the call is in the tree, so the pass aborts
    on every tree that holds one; the passes together abort whenever the
    assertion rewriter, which runs first and drops arguments of the calls
    it rewrites, leaves the call in the tree, and so does the transformer
    on a file that holds such a call as a statement. *)
Theorem zero_argument_test_call_aborts
    (parse : string → option node) (toSource : node → string → string)
    (detectQuoteStyle : node → option string) (name : string) :
  (∀ anc,
     rewriteTestCallExpression_callback anc (CallExpression (Identifier name) [])
     = Thrown (TypeError "Cannot read properties of undefined (reading 'type')") [])
  ∧ (∀ ast x,
       x ∈ subnodes ast → is_test_call name x = true → arguments_of x = [] →
       aborts (rewriteTestCallExpression name ast))
  ∧ (∀ ast x,
       is_test_call name x = true → arguments_of x = [] →
       (∀ ast1 w1, updateAssertions ast = Done ast1 w1 → x ∈ subnodes ast1) →
       aborts (transforms name ast))
  ∧ (∀ source body,
       parse source = Some (File (Program body)) →
       head (omap (binding_of "tape") body) = Some name →
       name ≠ EmptyString →
       call_stmt (Identifier name) [] ∈ body →
       aborts (tapeToJest parse toSource detectQuoteStyle source)).
Proof.
  split; [intros anc; apply callback_zero_arguments|]. split; [|split].
  - intros ast x Hin Hcall Hargs.
    rewrite (zero_arguments_inv _ _ Hcall Hargs) in Hin.
    by apply rewriteTestCallExpression_zero_arguments.
  - intros ast x Hcall Hargs Hkeep.
    rewrite (zero_arguments_inv _ _ Hcall Hargs) in Hkeep.
    by apply transforms_zero_arguments.
  - intros source body Hparse Hname Hne Hin.
    unfold tapeToJest. rewrite Hparse, removeRequireAndImport_file, Hname.
    cbn [falsy default]. rewrite bool_decide_eq_false_2 by assumption.
    apply aborts_bind_l, transforms_zero_arguments. intros ast1 w1.
    apply updateAssertions_zero_arguments.
    apply list_elem_of_filter. split; [reflexivity|assumption].
Qed.

Lemma zero_argument_test_call_aborts_witness :
  aborts (rewriteTestCallExpression "test" file_zero_arguments_detached)
  ∧ aborts (tapeToJest (parse_only file_zero_arguments) print_blank no_quote_style "input").
Proof.
  split.
  - apply (zero_argument_test_call_aborts (parse_only file_zero_arguments) print_blank
             no_quote_style "test")
      with (x := CallExpression (Identifier "test") []); [|reflexivity..].
    unfold file_zero_arguments_detached. cbn. set_solver.
  - apply (zero_argument_test_call_aborts (parse_only file_zero_arguments) print_blank
             no_quote_style "test")
      with (body := [require_tape; call_stmt (Identifier "test") []]).
    + reflexivity.
    + reflexivity.
    + discriminate.
    + apply list_elem_of_further, list_elem_of_here.
Defined.

(** ** The options of a test call *)

Lemma foldM_convertTapeOption props :
  ∀ x args p' w,
    foldM convertTapeOption props (CallExpression (Identifier x) args) = Done p' w →
    p' = CallExpression
           (Identifier (if existsb is_skip_option props then "test.skip" else x)) args
    ∧ message <$> w
      = replicate (length (filter (λ o, is_timeout_option o = true) props))
          timeout_message.
Proof.
  induction props as [|o props IH]; intros x args p' w H; cbn [foldM] in H.
  - by injection H as <- <-.
  - apply outcome_bind_Done in H as (p1 & w1 & w2 & Ho & H & ->).
    unfold convertTapeOption in Ho.
    destruct o as [| | | | | | | | | | | | |key value| | | |]; try discriminate.
    apply outcome_bind_Done in Ho as ([] & w3 & w4 & Hlog & [= <- <-] & ->).
    assert (message <$> (w3 ++ [])
            = replicate
                (length (filter (λ o, is_timeout_option o = true) [Property key value]))
                timeout_message) as Hw1.
    { rewrite app_nil_r. cbn [is_timeout_option] in *.
      destruct (bool_decide (name_of key = Some "timeout")) eqn:Ht;
        injection Hlog as <-.
      - rewrite filter_cons_True by exact Ht. reflexivity.
      - rewrite filter_cons_False by (cbn [is_timeout_option]; by rewrite Ht).
        reflexivity. }
    change (Property key value :: props) with ([Property key value] ++ props).
    rewrite filter_app, length_app, replicate_add, fmap_app, Hw1.
    cbn [app existsb is_skip_option].
    destruct (bool_decide (name_of key = Some "skip")
              && bool_decide (value_of value = Some (LBoolean true)));
      cbn [set_callee_name orb] in *; apply IH in H as [-> ->];
      (split; [|reflexivity]); by destruct (existsb is_skip_option props).
Qed.

Lemma filter_filter_same {A} (P : A → Prop) `{∀ x, Decision (P x)} (l : list A) :
  filter P (filter P l) = filter P l.
Proof.
  induction l as [|x l IH]; [done|]. destruct (decide (P x)).
  - rewrite !filter_cons_True by assumption. by rewrite IH.
  - by rewrite filter_cons_False.
Qed.

Lemma option_properties_cons a l :
  option_properties (a :: l)
  = (if is_ObjectExpression a then children a else []) ++ option_properties l.
Proof.
  unfold option_properties. destruct (is_ObjectExpression a) eqn:Ha.
  - by rewrite filter_cons_True.
  - rewrite filter_cons_False; [done|]. by rewrite Ha.
Qed.

Lemma foldM_convertTapeArgument l :
  ∀ x args p' w,
    foldM convertTapeArgument l (CallExpression (Identifier x) args) = Done p' w →
    p' = CallExpression
           (Identifier (if existsb is_skip_option (option_properties l)
                        then "test.skip" else x))
           (if existsb is_ObjectExpression l
            then filter (λ pa, is_ObjectExpression pa = false) args else args)
    ∧ message <$> w
      = replicate
          (length (filter (λ o, is_timeout_option o = true) (option_properties l)))
          timeout_message.
Proof.
  induction l as [|a l IH]; intros x args p' w H; cbn [foldM] in H.
  - by injection H as <- <-.
  - apply outcome_bind_Done in H as (p1 & w1 & w2 & Ha & H & ->).
    rewrite option_properties_cons, existsb_app, filter_app, length_app,
      replicate_add, fmap_app.
    unfold convertTapeArgument in Ha. cbn [existsb].
    destruct (is_ObjectExpression a).
    + apply outcome_bind_Done in Ha as (p2 & w3 & w4 & Hopts & [= <- <-] & ->).
      apply foldM_convertTapeOption in Hopts as [-> Hw3].
      cbn [arguments_of set_arguments] in H. apply IH in H as [-> Hw2].
      rewrite app_nil_r, Hw3, Hw2, filter_filter_same. split; [|done].
      cbn [orb].
      by destruct (existsb is_skip_option (children a)),
                  (existsb is_skip_option (option_properties l)),
                  (existsb is_ObjectExpression l).
    + injection Ha as <- <-. apply IH in H as [-> Hw2]. by rewrite Hw2.
Qed.

Lemma filter_no_object args :
  existsb is_ObjectExpression args = false →
  filter (λ pa, is_ObjectExpression pa = false) args = args.
Proof.
  induction args as [|a args IH]; [done|]. cbn [existsb].
  intros [Ha Hargs]%orb_false_iff.
  rewrite filter_cons_True by assumption. by rewrite IH.
Qed.

(** X10: when the options loop finishes on a call [x(args)], the object
    literals are gone from the arguments and the other arguments are kept
    in order; the callee is [test.skip] exactly if some property of some
    object literal is [skip: true] under an identifier key, and is [x]
    otherwise; and one warning is logged for every [timeout] property. *)
Theorem convertTapeOptions_summary (x : string) (args : list node) (p' : node)
    (w : list warning) :
  convertTapeOptions (CallExpression (Identifier x) args) = Done p' w →
  p' = CallExpression
         (Identifier (if existsb is_skip_option (option_properties args)
                      then "test.skip" else x))
         (filter (λ pa, is_ObjectExpression pa = false) args)
  ∧ message <$> w
    = replicate
        (length (filter (λ o, is_timeout_option o = true) (option_properties args)))
        timeout_message.
Proof.
  unfold convertTapeOptions. cbn [arguments_of].
  intros [-> Hw]%foldM_convertTapeArgument. split; [|exact Hw].
  destruct (existsb is_ObjectExpression args) eqn:Hobj; [done|].
  by rewrite filter_no_object.
Qed.

Lemma convertTapeOptions_summary_witness :
  CallExpression (Identifier "test.skip")
    [Literal (LString "x");
     test_callback [ExpressionStatement (t_call "ok" [Identifier "a"])]]
  = CallExpression
      (Identifier (if existsb is_skip_option
                        (option_properties (arguments_of test_with_skip))
                   then "test.skip" else "test"))
      (filter (λ pa, is_ObjectExpression pa = false) (arguments_of test_with_skip))
  ∧ message <$> [] = replicate
      (length (filter (λ o, is_timeout_option o = true)
                 (option_properties (arguments_of test_with_skip))))
      timeout_message.
Proof.
  apply (convertTapeOptions_summary "test" (arguments_of test_with_skip)
           (CallExpression (Identifier "test.skip")
              [Literal (LString "x");
               test_callback [ExpressionStatement (t_call "ok" [Identifier "a"])]]) []).
  vm_compute. reflexivity.
Defined.

(** ** The callback of the test-registration rewriter *)

Lemma pruneEnds_callee anc x args p1 kept w :
  pruneEnds anc (CallExpression (Identifier x) args) = Done (p1, kept) w →
  ∃ args', p1 = CallExpression (Identifier x) args'.
Proof.
  unfold pruneEnds. cbn [prune_children]. unfold prune_slot.
  cbn [pruneEnd_visit is_t_member prune_children].
  rewrite !outcome_ret_bind. intros H.
  apply outcome_bind_Done in H as ([args' k2] & ? & ? & _ & [= <- _] & _). eauto.
Qed.

(** X11: the call the callback leaves is named [test], or [xit] when the
    test function itself was bound under the name [xit]; it is never named
    [test.skip], whatever the options were. *)
Theorem callback_callee_test_or_xit
    (name : string) (anc : list node) (n n1 : node) (w : list warning) :
  is_test_call name n = true →
  rewriteTestCallExpression_callback anc n = Done n1 w →
  (callee_name n1 = Some "test" ∨ (name = "xit" ∧ callee_name n1 = Some "xit"))
  ∧ callee_name n1 ≠ Some "test.skip".
Proof.
  intros (args & ->)%is_test_call_inv. unfold rewriteTestCallExpression_callback.
  intros H.
  apply outcome_bind_Done in H as ([p1 kept] & ? & ? & Hprune & H & _).
  apply outcome_bind_Done in H as (? & ? & ? & _ & H & _).
  apply outcome_bind_Done in H as (p2 & ? & ? & Hopt & H & _).
  apply pruneEnds_callee in Hprune as (args1 & ->).
  unfold convertTapeOptions in Hopt. cbn [arguments_of] in Hopt.
  apply foldM_convertTapeArgument in Hopt as [-> _].
  unfold renameCallee in H. cbn [callee_name name_of] in H.
  destruct (existsb is_skip_option (option_properties args1)).
  - rewrite bool_decide_eq_true_2 in H by discriminate. cbn [set_callee_name] in H.
    apply removeTParameter_callee in H as (args3 & ->). cbn. split; [by left|discriminate].
  - destruct (decide (name = "xit")) as [->|Hne].
    + rewrite bool_decide_eq_false_2 in H by (by intros []).
      apply removeTParameter_callee in H as (args3 & ->). cbn.
      split; [by right|discriminate].
    + rewrite bool_decide_eq_true_2 in H by congruence. cbn [set_callee_name] in H.
      apply removeTParameter_callee in H as (args3 & ->). cbn.
      split; [by left|discriminate].
Qed.

Lemma callback_callee_test_or_xit_witness :
  (callee_name
     (CallExpression (Identifier "test")
        [Literal (LString "x");
         ArrowFunctionExpression ["()"]
           (BlockStatement [ExpressionStatement (t_call "ok" [Identifier "a"])])])
   = Some "test"
   ∨ ("test" = "xit"
      ∧ callee_name
          (CallExpression (Identifier "test")
             [Literal (LString "x");
              ArrowFunctionExpression ["()"]
                (BlockStatement [ExpressionStatement (t_call "ok" [Identifier "a"])])])
        = Some "xit")).
Proof.
  apply (callback_callee_test_or_xit "test" [ExpressionStatement Absent; Program []]
           test_with_skip _ []).
  - reflexivity.
  - vm_compute. reflexivity.
Defined.

(** X12: the parameter stripping logs nothing, keeps the callee and the
    number of arguments, and changes at most the last argument: an arrow
    function or a function expression keeps its body and gets the
    placeholder parameter list, anything else stays. *)
Theorem removeTParameter_last_only (p p' : node) (w : list warning) :
  removeTParameter p = Done p' w →
  w = []
  ∧ callee_name p' = callee_name p
  ∧ length (arguments_of p') = length (arguments_of p)
  ∧ (∀ i, (S i < length (arguments_of p))%nat →
          arguments_of p' !! i = arguments_of p !! i)
  ∧ ∃ lastArg,
      last (arguments_of p) = Some lastArg
      ∧ last (arguments_of p')
        = Some match lastArg with
               | ArrowFunctionExpression _ body => ArrowFunctionExpression ["()"] body
               | FunctionExpression _ body => FunctionExpression [EmptyString] body
               | other => other
               end.
Proof.
  intros (-> & lastArg & Hlast & ->)%removeTParameter_Done.
  assert (∀ x : node,
            last (<[pred (length (arguments_of p)) := x]> (arguments_of p)) = Some x)
    as Hnew.
  { intros x. rewrite last_lookup, length_insert.
    apply list_lookup_insert_eq. rewrite last_lookup in Hlast.
    by apply lookup_lt_Some in Hlast. }
  destruct p as [| | | | | | | | | |c args| | | | | | |];
    try (cbn in Hlast; discriminate).
  cbn [arguments_of set_arguments callee_name] in *.
  destruct lastArg;
    cbn [arguments_of callee_name];
    rewrite ?length_insert;
    (split; [done|]); (split; [done|]); (split; [done|]);
    (split; [intros i Hi; rewrite ?list_lookup_insert_ne by lia; done|]);
    eexists; (split; [done|]); rewrite ?Hnew; done.
Qed.

Lemma removeTParameter_last_only_witness :
  ∃ lastArg,
    last [Literal (LString "x"); FunctionExpression ["t"] (BlockStatement [])]
      = Some lastArg
    ∧ last (arguments_of
              (CallExpression (Identifier "test")
                 [Literal (LString "x");
                  FunctionExpression [EmptyString] (BlockStatement [])]))
      = Some match lastArg with
             | ArrowFunctionExpression _ body => ArrowFunctionExpression ["()"] body
             | FunctionExpression _ body => FunctionExpression [EmptyString] body
             | other => other
             end.
Proof.
  apply (removeTParameter_last_only
           (CallExpression (Identifier "test")
              [Literal (LString "x"); FunctionExpression ["t"] (BlockStatement [])])
           (CallExpression (Identifier "test")
              [Literal (LString "x");
               FunctionExpression [EmptyString] (BlockStatement [])]) []).
  reflexivity.
Defined.

(** ** End calls *)

Lemma prune_list_id f (l : list node) :
  (∀ x, x ∈ l → f x = Done (Some x, []) []) → prune_list f l = Done (l, []) [].
Proof.
  induction l as [|x l IH]; intros H; [reflexivity|]. cbn [prune_list].
  rewrite (H x) by apply list_elem_of_here.
  rewrite outcome_ret_bind || cbn.
  rewrite IH by (intros y Hy; by apply H, list_elem_of_further). reflexivity.
Qed.

Lemma prune_children_id f n :
  (∀ c, c ∈ children n → f c = Done (Some c, []) []) →
  prune_children f n = Done (n, []) [].
Proof.
  intros H. destruct n; cbn [prune_children children] in *; unfold prune_slot;
    rewrite ?(prune_list_id f) by (intros; apply H; set_solver);
    repeat match goal with
           | |- context [f ?a] => rewrite (H a) by set_solver
           end;
    reflexivity.
Qed.

Lemma pruneEnd_visit_id n :
  (∀ x, x ∈ subnodes n → is_t_member "end" x = false) →
  ∀ anc, pruneEnd_visit anc n = Done (Some n, []) [].
Proof.
  induction n as [n IH] using node_children_ind. intros Hno anc.
  rewrite Forall_forall in IH.
  assert (prune_children (pruneEnd_visit (n :: anc)) n = Done (n, []) []) as Hwalk.
  { apply prune_children_id. intros c Hc. apply IH; [done|].
    intros x Hx. eapply Hno, subnodes_child; eassumption. }
  rewrite pruneEnd_visit_unfold, (Hno _ (subnodes_self _)).
  destruct n; try (rewrite Hwalk; reflexivity).
  rewrite IH; [reflexivity|set_solver|].
  intros x Hx. eapply Hno, subnodes_child; [|eassumption]. set_solver.
Qed.

(** X13: a test call without an end call below it goes through the
    end-call step unchanged, whatever is above it: nothing is pruned,
    nothing is kept for a warning, nothing is logged. *)
Theorem pruneEnds_frame (anc : list node) (p : node) :
  (∀ x, x ∈ subnodes p → is_t_member "end" x = false) →
  pruneEnds anc p = Done (p, []) [].
Proof.
  intros Hno. unfold pruneEnds. apply prune_children_id. intros c Hc.
  apply pruneEnd_visit_id. intros x Hx. eapply Hno, subnodes_child; eassumption.
Qed.

Lemma pruneEnds_frame_witness :
  pruneEnds [] (CallExpression (Identifier "test") [Literal (LString "x")])
    = Done (CallExpression (Identifier "test") [Literal (LString "x")], []) [].
Proof.
  apply (pruneEnds_frame [] (CallExpression (Identifier "test") [Literal (LString "x")])).
  intros x Hx. cbn in Hx.
  repeat (apply elem_of_cons in Hx as [->|Hx]; [reflexivity|]).
  by apply elem_of_nil in Hx.
Defined.

Lemma pruneEnd_visit_end_statement (args : list node) (parent outer : node) (anc : list node) :
  (∀ a x, a ∈ args → x ∈ subnodes a → is_t_member "end" x = false) →
  pruneEnd_visit (parent :: outer :: anc) (ExpressionStatement (t_call "end" args))
  = if bool_decide (first_param outer = Some "t")
    then Done (None, []) []
    else Done (Some (ExpressionStatement (t_call "end" args)), [t_call "end" args]) [].
Proof.
  intros Hno.
  assert (prune_children
            (pruneEnd_visit
               (t_call "end" args
                :: ExpressionStatement (t_call "end" args) :: parent :: outer :: anc))
            (t_call "end" args)
          = Done (t_call "end" args, []) []) as Hwalk.
  { apply prune_children_id. unfold t_call. cbn [children].
    intros c [->|Hc]%elem_of_cons; [reflexivity|].
    apply pruneEnd_visit_id. intros x Hx. by eapply Hno. }
  rewrite pruneEnd_visit_unfold.
  change (is_t_member "end" (ExpressionStatement (t_call "end" args))) with false.
  cbn iota. rewrite pruneEnd_visit_unfold.
  change (is_t_member "end" (t_call "end" args)) with true.
  cbn iota. unfold inTestScope. cbn [lookup list_lookup].
  rewrite outcome_ret_bind, Hwalk.
  by destruct (bool_decide (first_param outer = Some "t")).
Qed.

(** X14: the scope rule of the end-call step.  A statement [t.end(...)]
    whose arguments hold no end call is deleted exactly if the node two
    above the statement (three above the call) is a function whose first
    parameter is named [t]; otherwise the statement stays and the call is
    kept for the warning. *)
Theorem end_statement_scope (args : list node) (parent outer : node) (anc : list node) :
  (∀ a x, a ∈ args → x ∈ subnodes a → is_t_member "end" x = false) →
  pruneEnd_visit (parent :: outer :: anc) (ExpressionStatement (t_call "end" args))
  = if bool_decide (first_param outer = Some "t")
    then Done (None, []) []
    else Done (Some (ExpressionStatement (t_call "end" args)), [t_call "end" args]) [].
Proof. apply pruneEnd_visit_end_statement. Qed.

Lemma end_statement_scope_witness :
  pruneEnd_visit
    [BlockStatement [end_stmt]; IfStatement (Identifier "c") (BlockStatement [end_stmt]) Absent]
    (ExpressionStatement (t_call "end" []))
  = Done (Some (ExpressionStatement (t_call "end" [])), [t_call "end" []]) [].
Proof.
  apply (end_statement_scope [] (BlockStatement [end_stmt])
           (IfStatement (Identifier "c") (BlockStatement [end_stmt]) Absent) []).
  intros a x Ha. by apply elem_of_nil in Ha.
Defined.

(** ** Whole passes *)

Lemma rewriteTestCallExpression_tree_id fuel :
  ∀ name anc n,
    (∀ x, x ∈ subnodes n → is_test_call name x = false) →
    rewriteTestCallExpression_tree fuel name anc n = Done n [].
Proof.
  induction fuel as [|fuel IH]; intros name anc n Hno; [reflexivity|].
  cbn [rewriteTestCallExpression_tree]. unfold rewriteTestCallExpression_at.
  rewrite (Hno _ (subnodes_self _)), outcome_ret_bind.
  apply traverse_children_id. intros c Hc. apply IH.
  intros x Hx. eapply Hno, subnodes_child; eassumption.
Qed.

Lemma rewriteTestCallExpression_id name ast :
  (∀ x, x ∈ subnodes ast → is_test_call name x = false) →
  rewriteTestCallExpression name ast = Done ast [].
Proof.
  intros Hno. unfold rewriteTestCallExpression.
  by rewrite runCallbacks_id, rewriteTestCallExpression_tree_id.
Qed.

(** X15: a tree without a call of the test function comes out of the
    test-registration rewriter exactly as it went in. *)
Theorem rewriteTestCallExpression_frame (name : string) (ast : node) :
  (∀ x, x ∈ subnodes ast → is_test_call name x = false) →
  rewriteTestCallExpression name ast = Done ast [].
Proof. apply rewriteTestCallExpression_id. Qed.

Lemma rewriteTestCallExpression_frame_witness :
  rewriteTestCallExpression "test" (ExpressionStatement test_only)
    = Done (ExpressionStatement test_only) [].
Proof.
  apply (rewriteTestCallExpression_frame "test" (ExpressionStatement test_only)).
  intros x Hx. cbn in Hx.
  repeat (apply elem_of_cons in Hx as [->|Hx]; [reflexivity|]).
  by apply elem_of_nil in Hx.
Defined.

Lemma forEach_succeeds {A} (f : A → outcome unit) l :
  (∀ x, x ∈ l → succeeds (f x)) → succeeds (forEach f l).
Proof.
  intros H. unfold forEach. apply succeeds_bind; [|intros; apply succeeds_ret].
  induction l as [|x l IH]; [apply succeeds_ret|]. cbn [traverse].
  apply succeeds_bind; [apply H, list_elem_of_here|]. intros y.
  apply succeeds_bind; [|intros; apply succeeds_ret].
  apply IH. intros z Hz. by apply H, list_elem_of_further.
Qed.

Lemma find_matches matches root x : x ∈ find matches root → matches x = true.
Proof. unfold find. by intros [Hx _]%list_elem_of_filter. Qed.

Lemma validateTestArgument_succeeds c args :
  succeeds (validateTestArgument (CallExpression c args)).
Proof.
  unfold validateTestArgument. destruct (last args ≫= first_param) as [x|].
  - case_bool_decide; [by eexists _, _|apply succeeds_ret].
  - apply succeeds_ret.
Qed.

Lemma detectUnsupportedNaming_succeeds name ast :
  succeeds (detectUnsupportedNaming name ast).
Proof.
  unfold detectUnsupportedNaming.
  apply succeeds_bind; [|intros _]; apply forEach_succeeds; intros x Hx%find_matches;
    (destruct x; try discriminate); apply validateTestArgument_succeeds.
Qed.

Lemma is_member_in_property object names x :
  is_member_in object names x = true → is_Some (callee_property_name x).
Proof.
  destruct x as [| | | | | | | | | |c args| | | | | | |]; try discriminate.
  destruct c as [| | | | | | | | | | |o p b| | | | | |]; try discriminate.
  cbn [is_member_in callee_property_name].
  destruct (name_of p); [eauto|]. by rewrite andb_false_r.
Qed.

Lemma detectUnsupportedFeatures_succeeds name ast :
  succeeds (detectUnsupportedFeatures name ast).
Proof.
  unfold detectUnsupportedFeatures.
  apply succeeds_bind; [|intros _]; apply forEach_succeeds;
    intros x [y Hy]%find_matches%is_member_in_property.
  - unfold warn_unsupported_t. rewrite Hy. destruct (includes _ _); by eexists _, _.
  - unfold warn_unsupported_test. rewrite Hy. by eexists _, _.
Qed.

(** X16: the two read-only passes never throw: the property reads in
    their callbacks always find what they read, because of the filters
    the calls were found with. *)
Theorem detection_never_throws (name : string) (ast : node) :
  succeeds (detectUnsupportedNaming name ast)
  ∧ succeeds (detectUnsupportedFeatures name ast).
Proof.
  split; [apply detectUnsupportedNaming_succeeds|apply detectUnsupportedFeatures_succeeds].
Qed.

Lemma detectProblematicPackages_succeeds ast : succeeds (detectProblematicPackages ast).
Proof.
  unfold detectProblematicPackages. apply forEach_succeeds. intros pkg _.
  destruct (hasRequireOrImport ast pkg); [by eexists _, _|apply succeeds_ret].
Qed.

(** X17: a tree in which no call is matched by the assertion rewriter, by
    the comment rewriter or by the test-registration rewriter goes through
    all the passes and comes out as it went in; only the read-only passes
    may have logged warnings. *)
Theorem transforms_frame (name : string) (ast : node) :
  (∀ x, x ∈ subnodes ast →
        is_tape_assertion x = false
        ∧ is_t_member "comment" x = false
        ∧ is_test_call name x = false) →
  ∃ w, transforms name ast = Done ast w.
Proof.
  intros Hno. unfold transforms.
  destruct (detectUnsupportedNaming_succeeds name ast) as ([] & w1 & ->).
  destruct (detectUnsupportedFeatures_succeeds name ast) as ([] & w2 & ->).
  destruct (detectProblematicPackages_succeeds ast) as ([] & w3 & Hpkg).
  cbn [mbind outcome_mbind outcome_bind].
  rewrite updateAssertions_id by (intros x Hx; by apply Hno).
  cbn [mbind outcome_mbind outcome_bind].
  rewrite updateTapeComments_id by (intros x Hx; by apply Hno).
  cbn [mbind outcome_mbind outcome_bind].
  rewrite rewriteTestCallExpression_id by (intros x Hx; by apply Hno).
  cbn [mbind outcome_mbind outcome_bind]. rewrite Hpkg. by eexists.
Qed.

Lemma transforms_frame_witness :
  ∃ w, transforms "test" (File (Program [ExpressionStatement (t_call "fail" [])]))
       = Done (File (Program [ExpressionStatement (t_call "fail" [])])) w.
Proof.
  apply (transforms_frame "test" (File (Program [ExpressionStatement (t_call "fail" [])]))).
  intros x Hx. cbn in Hx.
  repeat (apply elem_of_cons in Hx as [->|Hx]; [repeat split; vm_compute; reflexivity|]).
  by apply elem_of_nil in Hx.
Defined.

Lemma end_statement_arguments_inv s args :
  end_statement_arguments s = Some args → s = ExpressionStatement (t_call "end" args).
Proof.
  destruct s as [| | | | |e| | | | | | | | | | | |]; try discriminate.
  destruct e as [| | | | | | | | | |c args'| | | | | | |]; try discriminate.
  destruct c as [| | | | | | | | | | |o p b| | | | | |]; try discriminate.
  destruct o; try discriminate. destruct p; try discriminate.
  destruct b; try discriminate. cbn [end_statement_arguments].
  destruct (bool_decide _) eqn:Ho; [|discriminate].
  destruct (bool_decide (name0 = "end")) eqn:Hp; [|discriminate].
  apply bool_decide_eq_true in Ho as ->. apply bool_decide_eq_true in Hp as ->.
  by intros [= ->].
Qed.

Lemma prune_list_filter f (keep : node → bool) (l : list node) :
  (∀ x, x ∈ l → f x = Done (if keep x then Some x else None, []) []) →
  prune_list f l = Done (filter (λ x, keep x = true) l, []) [].
Proof.
  induction l as [|x l IH]; intros H; [reflexivity|]. cbn [prune_list].
  rewrite (H x) by apply list_elem_of_here.
  rewrite IH by (intros y Hy; by apply H, list_elem_of_further).
  destruct (keep x) eqn:Hx.
  - by rewrite filter_cons_True.
  - rewrite filter_cons_False; [done|]. by rewrite Hx.
Qed.

(** X18: in a test call [name(title, (t, ...) => { stmts })] where the only
    end calls are statements [t.end(...)] of the callback's own block,
    the callback deletes exactly these statements, logs nothing, names the
    call [test] (or leaves it [xit]) and empties the parameter list. *)
Theorem direct_end_statements_removed
    (name : string) (title : literal) (ps : list string) (stmts : list node)
    (anc : list node) :
  (∀ s, s ∈ stmts →
     match end_statement_arguments s with
     | Some args => ∀ a x, a ∈ args → x ∈ subnodes a → is_t_member "end" x = false
     | None => ∀ x, x ∈ subnodes s → is_t_member "end" x = false
     end) →
  rewriteTestCallExpression_callback anc
    (CallExpression (Identifier name)
       [Literal title; ArrowFunctionExpression ("t" :: ps) (BlockStatement stmts)])
  = Done (CallExpression
            (Identifier (if bool_decide (name = "xit") then "xit" else "test"))
            [Literal title;
             ArrowFunctionExpression ["()"]
               (BlockStatement (filter (λ s, is_end_statement s = false) stmts))]) [].
Proof.
  intros Hstmts. unfold rewriteTestCallExpression_callback.
  rewrite pruneEnds_registration, pruneEnd_visit_unfold.
  change (is_t_member "end" (BlockStatement stmts)) with false.
  cbn iota. cbn [prune_children].
  rewrite (prune_list_filter _ (λ s, negb (is_end_statement s))).
  - cbn [mbind outcome_mbind outcome_bind mret outcome_ret default app length].
    rewrite bool_decide_eq_false_2 by (cbn; lia).
    rewrite convertTapeOptions_registration.
    cbn [mbind outcome_mbind outcome_bind].
    rewrite removeTParameter_registration.
    rewrite (list_filter_iff (λ x, negb (is_end_statement x) = true)
               (λ s, is_end_statement s = false))
      by (intros s; by destruct (is_end_statement s)).
    reflexivity.
  - intros s Hs. specialize (Hstmts s Hs). unfold is_end_statement.
    destruct (end_statement_arguments s) as [args|] eqn:Hargs.
    + apply end_statement_arguments_inv in Hargs as ->.
      by rewrite pruneEnd_visit_end_statement.
    + by apply pruneEnd_visit_id.
Qed.

Lemma direct_end_statements_removed_witness :
  rewriteTestCallExpression_callback []
    (CallExpression (Identifier "test")
       [Literal (LString "x");
        ArrowFunctionExpression ["t"]
          (BlockStatement [ExpressionStatement (t_call "plan" [Literal (LNumber 1)]);
                           end_stmt])])
  = Done (CallExpression (Identifier "test")
            [Literal (LString "x");
             ArrowFunctionExpression ["()"]
               (BlockStatement
                  [ExpressionStatement (t_call "plan" [Literal (LNumber 1)])])]) [].
Proof.
  apply (direct_end_statements_removed "test" (LString "x") []
           [ExpressionStatement (t_call "plan" [Literal (LNumber 1)]); end_stmt] []).
  intros s Hs. apply elem_of_cons in Hs as [->|Hs].
  - change (end_statement_arguments
              (ExpressionStatement (t_call "plan" [Literal (LNumber 1)]))) with
      (@None (list node)).
    cbn. intros x Hx.
    repeat (apply elem_of_cons in Hx as [->|Hx]; [reflexivity|]).
    by apply elem_of_nil in Hx.
  - apply elem_of_cons in Hs as [->|Hs]; [|by apply elem_of_nil in Hs].
    change (end_statement_arguments end_stmt) with (Some ([] : list node)).
    intros a x Ha. by apply elem_of_nil in Ha.
Defined.

Lemma log_of_prune_list f (l : list node) :
  (∀ x, x ∈ l → log_of (f x) = []) → log_of (prune_list f l) = [].
Proof.
  induction l as [|x l IH]; intros H; [reflexivity|]. cbn [prune_list].
  apply log_of_bind_nil; [apply H, list_elem_of_here|]. intros [r k].
  apply log_of_bind_nil; [|by intros [rs k']].
  apply IH. intros y Hy. by apply H, list_elem_of_further.
Qed.

Lemma log_of_prune_children f n :
  (∀ c, c ∈ children n → log_of (f c) = []) → log_of (prune_children f n) = [].
Proof.
  intros H. destruct n; cbn [prune_children children] in *; unfold prune_slot;
    repeat first
      [ reflexivity
      | apply log_of_prune_list; intros; apply H; set_solver
      | apply H; set_solver
      | apply log_of_bind_nil; [|intros [? ?]] ].
Qed.

Lemma log_of_pruneEnd_visit n : ∀ anc, log_of (pruneEnd_visit anc n) = [].
Proof.
  induction n as [n IH] using node_children_ind. intros anc.
  rewrite Forall_forall in IH.
  assert (log_of (prune_children (pruneEnd_visit (n :: anc)) n) = []) as Hwalk.
  { apply log_of_prune_children. intros c Hc. by apply IH. }
  rewrite pruneEnd_visit_unfold. destruct (is_t_member "end" n).
  - apply log_of_bind_nil.
    + unfold inTestScope. by destruct (anc !! 2%nat).
    + intros inScope. apply log_of_bind_nil; [exact Hwalk|].
      intros [n' kept]. by destruct inScope.
  - destruct n; try (apply log_of_bind_nil; [exact Hwalk|by intros [? ?]]).
    apply log_of_bind_nil; [apply IH; set_solver|by intros [? ?]].
Qed.

Lemma removeTParameter_silent p p' w : removeTParameter p = Done p' w → w = [].
Proof. by intros [-> _]%removeTParameter_Done. Qed.



(** ** The callbacks of a pass *)

Lemma runCallbacks_Done_callback name n :
  ∀ inside anc w,
    runCallbacks name inside anc n = Done () w →
    ∀ x, x ∈ subnodes n → is_test_call name x = true →
    ∃ anc' p, (p = x ∨ ∃ w0, afterPrune anc' x = Done p w0)
              ∧ succeeds (rewriteTestCallExpression_callback anc' p).
Proof.
  induction n as [n IH] using node_children_ind. intros inside anc w H x Hx Hcall.
  rewrite Forall_forall in IH. rewrite runCallbacks_unfold in H.
  apply outcome_bind_Done in H as ([] & w1 & w2 & Hhere & Hbelow & _).
  rewrite subnodes_unfold in Hx. apply elem_of_cons in Hx as [->|Hx].
  - rewrite Hcall in Hhere.
    apply outcome_bind_Done in Hhere as (p & w3 & w4 & Hp & Hcb & _).
    apply outcome_bind_Done in Hcb as (q & w5 & w6 & Hq & _ & _).
    exists anc, p. split; [|by eexists _, _].
    destruct inside; [right; eauto|left; by injection Hp as <- _].
  - apply list_elem_of_bind in Hx as (c & Hxc & Hc).
    unfold forEach in Hbelow.
    apply outcome_bind_Done in Hbelow as (us & w3 & w4 & Htrav & _ & _).
    destruct (traverse_Done_elem _ _ _ _ _ Htrav Hc) as ([] & wc & Hrun & _).
    eapply IH; eassumption.
Qed.

(** X20: the test-registration rewriter finishes only if the callback
    has finished on every test call of the tree it was given, wherever the
    call is, also inside a subtree that another callback detaches.  The
    callback ran on the call as it was collected, or on what the pruning
    of an enclosing test call left of it. *)
Theorem callbacks_run_on_every_path
    (name : string) (ast r : node) (w : list warning) (x : node) :
  rewriteTestCallExpression name ast = Done r w →
  x ∈ subnodes ast →
  is_test_call name x = true →
  ∃ anc p, (p = x ∨ ∃ w0, afterPrune anc x = Done p w0)
           ∧ succeeds (rewriteTestCallExpression_callback anc p).
Proof.
  intros [Hrun _]%rewriteTestCallExpression_Done. by eapply runCallbacks_Done_callback.
Qed.

Lemma callbacks_run_on_every_path_witness :
  ∃ anc p, (p = test_in_end ∨ ∃ w0, afterPrune anc test_in_end = Done p w0)
           ∧ succeeds (rewriteTestCallExpression_callback anc p).
Proof.
  destruct (rewriteTestCallExpression "test" file_test_in_end) as [r w|e w] eqn:Hrun;
    [|vm_compute in Hrun; discriminate].
  apply (callbacks_run_on_every_path "test" file_test_in_end r w test_in_end Hrun).
  - unfold file_test_in_end, test_in_end, test_callback, call_stmt, t_call. cbn.
    set_solver.
  - reflexivity.
Defined.
